(** * HubSpot property import: a shallow embedding of [index.ts]

    The script reads a CSV export and talks to a remote schema API through
    axios.  The embedding keeps the program's shape: every [async] function
    of the source is a computation in a small monad that threads the state
    of the remote world, collects what the process does on the way (HTTP
    exchanges, console output, pauses) and propagates exceptions;
    [try]/[catch] is a combinator of that monad.  The remote server, the CSV
    reader and the two JSON built-ins are parameters of the development. *)

From Stdlib Require Import ZArith.
From stdpp Require Import gmap strings list pretty.

Open Scope string_scope.
Open Scope list_scope.

(** ** JavaScript values read from a row *)

(** A cell read with [row['Column']] is a string, or [undefined] when the row
    has no such key. *)
Abbreviation value := (option string).

(** A row produced by csv-parser: an object from column names to cells. *)
Abbreviation row := (gmap string string).

(** Interpolation in a template literal: [`${v}`]. *)
Definition to_string (v : value) : string := default "undefined" v.

(** JavaScript truthiness of a string-or-undefined value. *)
Definition truthy (v : value) : bool :=
  match v with
  | Some s => negb (String.eqb s EmptyString)
  | None => false
  end.

(** A string between double quotes, as it appears inside a message. *)
Definition quoted (s : string) : string :=
  String (Ascii.ascii_of_nat 34) (s +:+ String (Ascii.ascii_of_nat 34) EmptyString).

(** [v === 'true'] *)
Definition is_true (v : value) : bool := bool_decide (v = Some "true").

(** ** The [Property] interface *)

(** The fields filled from cells are strings or [undefined]; a flag is the
    truthiness of the field.  Objects sent by the server are read through
    the same interface. *)
Record Property := {
  name : value;
  label : value;
  type : value;
  description : value;
  groupName : value;
  fieldType : string;
  options : value;
  readOnly : bool;
  calculated : bool;
  externalOptions : bool;
  deleted : bool;
  hubspotDefined : bool;
}.

(** ** JSON, requests and responses *)

#[local] Unset Elimination Schemes.
Inductive json :=
  | JNull
  | JBool (b : bool)
  | JNum (n : Z)
  | JStr (s : string)
  | JArr (l : list json)
  | JObj (l : list (string * json)).
#[local] Set Elimination Schemes.

Inductive Method := GET | POST | PUT | DELETE.

#[global] Instance Method_eq_dec : EqDecision Method.
Proof. solve_decision. Defined.

(** The [data] object of a definition create or update request. *)
Record PropertyData := {
  data_name : value;
  data_label : value;
  data_description : value;
  data_groupName : value;
  data_type : value;
  data_fieldType : string;
  data_formField : bool;
  data_options : option json;
}.

Inductive RequestData :=
  | NoData
  | GroupData (group_name displayName : value)
  | DefinitionData (d : PropertyData).

Record Request := {
  method : Method;
  url : string;
  data : RequestData;
  headers : list (string * string);
}.

(** The body of a successful response, as far as the program inspects it:
    a JSON array, a single object, [null], or an empty body.  An element of
    an array is an object or [null], here [None]: reading a field of [null]
    throws.  Objects are read through the fields of [Property]; of a
    grouping only [name] is read.  A number or a string has none of the
    fields the program reads and counts as an object without them. *)
Inductive Body :=
  | BArray (l : list (option Property))
  | BObject (p : Property)
  | BNull
  | BEmpty.

(** The error axios rejects with: a message and, when the server answered
    with an error status, that status and the body. *)
Record AxiosError := {
  message : string;
  response : option (Z * Body);
}.

(** Everything the program can find in a [catch] clause. *)
Inductive Exn :=
  | AxiosErr (e : AxiosError)
  | SyntaxError (msg : string)
  | TypeError (msg : string)
  | StreamError (msg : string).

(** [error.message]; every value thrown here is an [Error] instance. *)
Definition error_message (error : Exn) : string :=
  match error with
  | AxiosErr e => message e
  | SyntaxError msg | TypeError msg | StreamError msg => msg
  end.

(** ** What the process does *)

Inductive Arg :=
  | Text (s : string)
  | Names (l : list value)
  | Caught (error : Exn).

Inductive Event :=
  | Http (req : Request) (res : AxiosError + Body)
  | Sleep (ms : Z)
  | ConsoleLog (args : list Arg)
  | ConsoleError (args : list Arg).

(** The requests among the events, in order. *)
Fixpoint requests (evs : list Event) : list Request :=
  match evs with
  | [] => []
  | Http req _ :: rest => req :: requests rest
  | _ :: rest => requests rest
  end.

Definition BASE_URL : string :=
  "https://api.hubapi.com/properties/v1/contacts/properties".
Definition GROUPS_URL : string :=
  "https://api.hubapi.com/properties/v1/contacts/groups".

Inductive Outcome (A : Type) :=
  | Returned (a : A)
  | Thrown (error : Exn).
Arguments Returned {A} a.
Arguments Thrown {A} error.

(** A JavaScript [Set] of cells: insertion order, no repetition. *)
Definition Set_add (s : list value) (v : value) : list value :=
  if decide (v ∈ s) then s else s ++ [v].

(** What running a computation from a state of the remote world gives: how
    it ended, the world it left, and what the process did meanwhile. *)
Record Run (W A : Type) := {
  outcome : Outcome A;
  world : W;
  output : list Event;
}.
Arguments outcome {W A} r.
Arguments world {W A} r.
Arguments output {W A} r.

(** How the process ends: its exit status, the world it left and what it
    did. *)
Record Exit (W : Type) := {
  status : Z;
  end_world : W;
  trace : list Event;
}.
Arguments status {W} e.
Arguments end_world {W} e.
Arguments trace {W} e.

(** ** The environment of the process *)

Class Platform := {
  (** The remote server: a state and its answer to each request. *)
  World : Type;
  remote : World -> Request -> (AxiosError + Body) * World;
  (** [process.env.HUBSPOT_API_KEY] *)
  API_KEY : value;
  (** [JSON.parse], with the message of the [SyntaxError] on the left, and
      [JSON.stringify] on response bodies. *)
  JSON_parse : string -> string + json;
  JSON_stringify : Body -> string;
  (** [fs.createReadStream(path).pipe(csv())]: the rows of the file, or the
      message of the stream's error. *)
  read_csv : string -> string + list row;
}.

(** ** The monad of [async] functions *)

Section Monad.
Context {P : Platform}.

Definition M (A : Type) : Type := World -> Run World A.

Definition ret {A} (a : A) : M A :=
  fun w => {| outcome := Returned a; world := w; output := [] |}.

(** Sequencing: the continuation starts in the world the first part left,
    and what it does comes after what the first part did. *)
Definition after {A} (evs : list Event) (r : Run World A) : Run World A :=
  match r with
  | {| outcome := o; world := w; output := evs' |} =>
      {| outcome := o; world := w; output := evs ++ evs' |}
  end.

Definition bind {A B} (m : M A) (k : A -> M B) : M B :=
  fun w =>
    match m w with
    | {| outcome := Returned a; world := w1; output := evs |} => after evs (k a w1)
    | {| outcome := Thrown error; world := w1; output := evs |} =>
        {| outcome := Thrown error; world := w1; output := evs |}
    end.

Definition throw {A} (error : Exn) : M A :=
  fun w => {| outcome := Thrown error; world := w; output := [] |}.

Definition try_catch {A} (m : M A) (handler : Exn -> M A) : M A :=
  fun w =>
    match m w with
    | {| outcome := Returned a; world := w1; output := evs |} =>
        {| outcome := Returned a; world := w1; output := evs |}
    | {| outcome := Thrown error; world := w1; output := evs |} =>
        after evs (handler error w1)
    end.

Definition emit (ev : Event) : M unit :=
  fun w => {| outcome := Returned tt; world := w; output := [ev] |}.

End Monad.

Notation "x <~ m ;; k" := (bind m (fun x => k))
(at level 100, m at next level, right associativity).
Notation "m ;;; k" := (bind m (fun _ => k))
(at level 100, right associativity).

(** ** The program *)

Section Program.
Context {P : Platform}.

Definition console_log (msg : string) : M unit := emit (ConsoleLog [Text msg]).
Definition console_error (args : list Arg) : M unit := emit (ConsoleError args).
Definition sleep (ms : Z) : M unit := emit (Sleep ms).

(** One axios call: the server answers, the exchange is recorded, and an
    error answer is thrown. *)
Definition axios (req : Request) : M Body :=
  fun w =>
    let '(res, w') := remote w req in
    {| outcome := match res with
                  | inl e => Thrown (AxiosErr e)
                  | inr body => Returned body
                  end;
       world := w';
       output := [Http req res] |}.

Definition authorization : string * string :=
  ("Authorization", "Bearer " +:+ to_string API_KEY).
Definition auth_headers : list (string * string) := [authorization].
Definition json_headers : list (string * string) :=
  [("Content-Type", "application/json"); authorization].

(** The [TypeError] of reading [field] of [null]. *)
Definition null_field (field : string) : Exn :=
  TypeError ("Cannot read properties of null (reading '" +:+ field +:+ "')").

(** [array.some(element => f element)], where [f] reads [field] of the
    element: the callback is called on the elements in order until it
    returns true, and throws on [null]. *)
Fixpoint array_some (field : string) (f : Property -> bool)
    (l : list (option Property)) : Exn + bool :=
  match l with
  | [] => inr false
  | None :: _ => inl (null_field field)
  | Some p :: rest => if f p then inr true else array_some field f rest
  end.

(** [array.filter(element => f element)]: the callback is called on every
    element in order, and throws on [null]. *)
Fixpoint array_filter (field : string) (f : Property -> bool)
    (l : list (option Property)) : Exn + list Property :=
  match l with
  | [] => inr []
  | None :: _ => inl (null_field field)
  | Some p :: rest =>
      match array_filter field f rest with
      | inr kept => inr (if f p then p :: kept else kept)
      | inl error => inl error
      end
  end.

Definition of_result {A} (r : Exn + A) : M A :=
  match r with
  | inr a => ret a
  | inl error => throw error
  end.

(** [response.data.some(f)] and [response.data.filter(f)]: [null] has no
    properties, and any other body that is not an array has no such
    method. *)
Definition data_some (field : string) (f : Property -> bool) (body : Body) : M bool :=
  match body with
  | BArray l => of_result (array_some field f l)
  | BNull => throw (null_field "some")
  | _ => throw (TypeError "response.data.some is not a function")
  end.

Definition data_filter (field : string) (f : Property -> bool) (body : Body)
    : M (list Property) :=
  match body with
  | BArray l => of_result (array_filter field f l)
  | BNull => throw (null_field "filter")
  | _ => throw (TypeError "response.data.filter is not a function")
  end.

Definition groups_list_request : Request :=
  {| method := GET; url := GROUPS_URL; data := NoData; headers := auth_headers |}.

Definition group_create_request (g : value) : Request :=
  {| method := POST; url := GROUPS_URL; data := GroupData g g;
     headers := json_headers |}.

Definition createGroupIfNotExists (groupName : value) : M unit :=
  try_catch
    (body <~ axios groups_list_request ;;
     groupExists <~ data_some "name" (fun group => bool_decide (name group = groupName))
                      body ;;
     if negb groupExists then
       axios (group_create_request groupName) ;;;
       console_log ("Created property group: " +:+ to_string groupName)
     else ret tt)
    (fun error =>
       console_error [Text ("Error with property group " +:+ to_string groupName +:+ ":");
                      Text (error_message error)]).

Definition properties_list_request : Request :=
  {| method := GET; url := BASE_URL; data := NoData; headers := auth_headers |}.

Definition getAllCustomProperties : M (list Property) :=
  console_log "Fetching all custom properties..." ;;;
  try_catch
    (body <~ axios properties_list_request ;;
     customProperties <~ data_filter "hubspotDefined"
                           (fun prop => negb (hubspotDefined prop)) body ;;
     console_log ("Found " +:+ pretty (length customProperties) +:+ " custom properties.") ;;;
     ret customProperties)
    (fun error =>
       console_error [Text "Error fetching custom properties:"; Caught error] ;;;
       ret []).

Definition named_url (propertyName : value) : string :=
  BASE_URL +:+ "/named/" +:+ to_string propertyName.

Definition details_request (propertyName : value) : Request :=
  {| method := GET; url := named_url propertyName; data := NoData;
     headers := auth_headers |}.

(** [Promise<Property | null>]: [None] is [null]. *)
Definition getPropertyDetails (propertyName : value) : M (option Body) :=
  try_catch
    (body <~ axios (details_request propertyName) ;; ret (Some body))
    (fun _ => ret None).

(** Truthiness of what [getPropertyDetails] returned: [null], whether
    returned by the [catch] clause or sent as the body, and an empty body
    are falsy; objects and arrays are truthy. *)
Definition found (details : option Body) : bool :=
  match details with
  | Some (BObject _) | Some (BArray _) => true
  | Some BNull | Some BEmpty | None => false
  end.

(** [details.readOnly] on a truthy result; an array has no such field. *)
Definition details_readOnly (details : option Body) : bool :=
  match details with
  | Some (BObject p) => readOnly p
  | _ => false
  end.

(** The value of [prop.options ? JSON.parse(prop.options) : undefined], or
    the message of the error [JSON.parse] throws. *)
Definition options_value (opts : value) : string + option json :=
  if truthy opts then
    match JSON_parse (to_string opts) with
    | inr j => inr (Some j)
    | inl msg => inl msg
    end
  else inr None.

Definition parse_options (opts : value) : M (option json) :=
  match options_value opts with
  | inr o => ret o
  | inl msg => throw (SyntaxError msg)
  end.

(** The [data] object built from [prop]. *)
Definition definition_data (prop : Property) (opts : option json) : PropertyData :=
  {| data_name := name prop;
     data_label := label prop;
     data_description := description prop;
     data_groupName := groupName prop;
     data_type := type prop;
     data_fieldType := fieldType prop;
     data_formField := bool_decide (fieldType prop = "text");
     data_options := opts |}.

Definition definition_request (existing : bool) (prop : Property)
    (opts : option json) : Request :=
  {| method := if existing then PUT else POST;
     url := if existing then named_url (name prop) else BASE_URL;
     data := DefinitionData (definition_data prop opts);
     headers := json_headers |}.

Definition createOrUpdateProperty (prop : Property) : M bool :=
  try_catch
    (existingProperty <~ getPropertyDetails (name prop) ;;
     opts <~ parse_options (options prop) ;;
     axios (definition_request (found existingProperty) prop opts) ;;;
     console_log ((if found existingProperty then "Updated" else "Created")
                    +:+ " property: " +:+ to_string (name prop)) ;;;
     ret true)
    (fun error =>
       match error with
       | AxiosErr {| response := Some (status, body) |} =>
           console_error
             [Text ("Error processing property " +:+ to_string (name prop) +:+ ": "
                      +:+ pretty status +:+ " - " +:+ JSON_stringify body)]
       | _ =>
           console_error
             [Text ("Error processing property " +:+ to_string (name prop) +:+ ":");
              Text (error_message error)]
       end ;;;
       ret false).

Definition delete_request (propertyName : value) : Request :=
  {| method := DELETE; url := named_url propertyName; data := NoData;
     headers := auth_headers |}.

Definition deleteProperty (propertyName : value) : M bool :=
  try_catch
    (axios (delete_request propertyName) ;;;
     console_log ("Deleted property: " +:+ to_string propertyName) ;;;
     ret true)
    (fun error =>
       console_error [Text ("Error deleting property " +:+ to_string propertyName +:+ ":");
                      Text (error_message error)] ;;;
       ret false).

(** Reading the file to its end; a stream error is thrown outside every
    [try] block of the program. *)
Definition read_rows (filePath : string) : M (list row) :=
  match read_csv filePath with
  | inr rows => ret rows
  | inl msg => throw (StreamError msg)
  end.

(** The object pushed for a row of the export. *)
Definition property_of_row (r : row) : Property :=
  {| name := r !! "Internal name";
     label := r !! "Name";
     type := r !! "Type";
     description := r !! "Description";
     groupName := r !! "Group name";
     fieldType := if is_true (r !! "Form field") then "text" else "textarea";
     options := r !! "Options";
     readOnly := is_true (r !! "Read only value");
     calculated := is_true (r !! "Calculated");
     externalOptions := is_true (r !! "External options");
     deleted := is_true (r !! "Deleted");
     hubspotDefined := false |}.

(** The ['data'] handler of [importProperties]. *)
Definition import_on_data (properties : list Property) (r : row) : list Property :=
  if negb (is_true (r !! "Hubspot defined"))
  then properties ++ [property_of_row r]
  else properties.

(** The body of the loop of [importProperties]. *)
Definition import_step (total index : nat) (prop : Property) : M unit :=
  console_log ("Processing property " +:+ pretty (index + 1)%nat +:+ " of "
                 +:+ pretty total +:+ ": " +:+ to_string (name prop)) ;;;
  createGroupIfNotExists (groupName prop) ;;;
  createOrUpdateProperty prop ;;;
  ret tt.

Fixpoint import_loop (total index : nat) (properties : list Property) : M unit :=
  match properties with
  | [] => ret tt
  | prop :: rest =>
      import_step total index prop ;;;
      import_loop total (S index) rest
  end.

Definition importProperties (filePath : string) : M unit :=
  console_log ("Starting import from file: " +:+ filePath) ;;;
  rows <~ read_rows filePath ;;
  let properties := foldl import_on_data [] rows in
  console_log ("Found " +:+ pretty (length properties) +:+ " properties to import.") ;;;
  import_loop (length properties) 0 properties ;;;
  console_log "Import completed.".

(** The ['data'] handler of [deletePropertiesFromCSV]. *)
Definition delete_on_data (propertiesToDelete : list value) (r : row) : list value :=
  if negb (is_true (r !! "Hubspot defined"))
  then Set_add propertiesToDelete (r !! "Internal name")
  else propertiesToDelete.

(** [customProperties.some((prop) => prop.name === propName)] *)
Definition in_snapshot (customProperties : list Property) (propName : value) : bool :=
  existsb (fun prop => bool_decide (name prop = propName)) customProperties.

(** The body of the loop of [deletePropertiesFromCSV]; [failedDeletions] is
    threaded through and returned. *)
Definition deletion_step (customProperties : list Property) (size index : nat)
    (failedDeletions : list value) (propName : value) : M (list value) :=
  console_log ("Processing deletion " +:+ pretty index +:+ " of " +:+ pretty size
                 +:+ ": " +:+ to_string propName) ;;;
  if in_snapshot customProperties propName then
    details <~ getPropertyDetails propName ;;
    failed <~ (if found details && negb (details_readOnly details) then
                 success <~ deleteProperty propName ;;
                 ret (if negb success then (failedDeletions ++ [propName])%list
                      else failedDeletions)
               else
                 console_log ("Skipping read-only or non-existent property: "
                                +:+ to_string propName) ;;;
                 ret (failedDeletions ++ [propName])%list) ;;
    sleep 1000 ;;;
    ret failed
  else
    console_log ("Property not found in custom properties: " +:+ to_string propName) ;;;
    ret failedDeletions.

Fixpoint deletion_loop (customProperties : list Property) (size index : nat)
    (failedDeletions : list value) (targets : list value) : M (list value) :=
  match targets with
  | [] => ret failedDeletions
  | propName :: rest =>
      failed <~ deletion_step customProperties size index failedDeletions propName ;;
      deletion_loop customProperties size (S index) failed rest
  end.

(** The source returns nothing; the model returns [failedDeletions], the
    list the function reports at the end. *)
Definition deletePropertiesFromCSV (filePath : string) : M (list value) :=
  console_log ("Starting property deletion from file: " +:+ filePath) ;;;
  customProperties <~ getAllCustomProperties ;;
  rows <~ read_rows filePath ;;
  let propertiesToDelete := foldl delete_on_data [] rows in
  console_log ("Found " +:+ pretty (length propertiesToDelete)
                 +:+ " properties to delete.") ;;;
  failedDeletions <~ deletion_loop customProperties (length propertiesToDelete) 1 []
                       propertiesToDelete ;;
  (if bool_decide (0 < length failedDeletions)%nat then
     console_error [Text "Failed to delete the following properties:";
                    Names failedDeletions]
   else ret tt) ;;;
  console_log "Property deletion completed." ;;;
  ret failedDeletions.

Definition group_delete_request (groupName : value) : Request :=
  {| method := DELETE; url := GROUPS_URL +:+ "/" +:+ to_string groupName;
     data := NoData; headers := auth_headers |}.

Definition deleteGroup (groupName : value) : M unit :=
  try_catch
    (axios (group_delete_request groupName) ;;;
     console_log ("Deleted group: " +:+ to_string groupName))
    (fun error =>
       console_error [Text ("Error deleting group " +:+ to_string groupName +:+ ":");
                      Text (error_message error)]).

(** The ['data'] handler of [deleteGroupsFromCSV]. *)
Definition groups_on_data (groups : list value) (r : row) : list value :=
  Set_add groups (r !! "Group name").

Definition group_deletion_step (size index : nat) (groupName : value) : M unit :=
  console_log ("Processing group deletion " +:+ pretty index +:+ " of "
                 +:+ pretty size +:+ ": " +:+ to_string groupName) ;;;
  deleteGroup groupName.

Fixpoint group_deletion_loop (size index : nat) (groups : list value) : M unit :=
  match groups with
  | [] => ret tt
  | groupName :: rest =>
      group_deletion_step size index groupName ;;;
      group_deletion_loop size (S index) rest
  end.

Definition deleteGroupsFromCSV (filePath : string) : M unit :=
  console_log ("Starting group deletion from file: " +:+ filePath) ;;;
  rows <~ read_rows filePath ;;
  let groups := foldl groups_on_data [] rows in
  console_log ("Found " +:+ pretty (length groups) +:+ " groups to delete.") ;;;
  group_deletion_loop (length groups) 1 groups ;;;
  console_log "Group deletion completed.".

(** ** Main execution *)

(** [console.error(msg); process.exit(1)] *)
Definition exit_with_error (msg : string) (w : World) : Exit World :=
  {| status := 1; end_world := w; trace := [ConsoleError [Text msg]] |}.

(** A dispatched workflow is not awaited: the process ends with status 0
    once the workflow has nothing left to do, and with status 1 when an
    error reaches the top uncaught. *)
Definition run_to_exit {A} (workflow : M A) (w : World) : Exit World :=
  match workflow w with
  | {| outcome := Returned _; world := w'; output := evs |} =>
      {| status := 0; end_world := w'; trace := evs |}
  | {| outcome := Thrown _; world := w'; output := evs |} =>
      {| status := 1; end_world := w'; trace := evs |}
  end.

(** The top level of the module; [argv] is [process.argv]. *)
Definition main (argv : list string) (w : World) : Exit World :=
  if negb (truthy API_KEY) then
    exit_with_error "HUBSPOT_API_KEY environment variable is not set" w
  else
    let args := drop 2 argv in
    let command := args !! 0%nat in
    let filePath := args !! 1%nat in
    if negb (truthy filePath) then
      exit_with_error "Please provide a CSV file path" w
    else if bool_decide (command = Some "import") then
      run_to_exit (importProperties (to_string filePath)) w
    else if bool_decide (command = Some "delete-properties") then
      run_to_exit (deletePropertiesFromCSV (to_string filePath)) w
    else if bool_decide (command = Some "delete-groups") then
      run_to_exit (deleteGroupsFromCSV (to_string filePath)) w
    else
      exit_with_error
        ("Invalid command. Use " +:+ quoted "import" +:+ ", "
           +:+ quoted "delete-properties" +:+ ", or " +:+ quoted "delete-groups") w.

End Program.

(** ** A reference remote store

    The server is not part of the program.  To run the program on concrete
    inputs, and to state what two runs against the same store do, here is a
    store that behaves as the spec assumes of the remote: it answers lookups
    from its contents and applies every mutation it is sent.  It is
    deliberately permissive: a create is accepted even for a name the store
    already holds, so that the absence of duplicates is the program's
    doing and not the server's. *)

(** What the server receives of the URL the client was given: the fragment
    is never sent, and a query is not part of the path.  Percent escapes and
    dot segments are not interpreted here; what is proved about the store
    is about names that travel as they are written, see [plain_name]. *)
Fixpoint transmitted (u : string) : string :=
  match u with
  | EmptyString => EmptyString
  | String c u' =>
      if existsb (Ascii.eqb c) (String.list_ascii_of_string "#?") then EmptyString
      else String c (transmitted u')
  end.

(** A name that is a path segment of its own: not empty, and made of
    letters, digits, [_] and [-] only. *)
Definition plain_char (c : Ascii.ascii) : bool :=
  existsb (Ascii.eqb c)
    (String.list_ascii_of_string
       "abcdefghijklmnopqrstuvwxyzABCDEFGHIJKLMNOPQRSTUVWXYZ0123456789_-").

Definition plain_name (s : string) : bool :=
  negb (String.eqb s EmptyString) && forallb plain_char (String.list_ascii_of_string s).

Fixpoint strip_prefix (p s : string) : option string :=
  match p with
  | EmptyString => Some s
  | String a p' =>
      match s with
      | String b s' => if Ascii.eqb a b then strip_prefix p' s' else None
      | EmptyString => None
      end
  end.

Record Store := {
  groups : list value;
  definitions : list Property;
}.

(** An object with only a [name]. *)
Definition named_object (n : value) : Property :=
  {| name := n; label := None; type := None; description := None;
     groupName := None; fieldType := EmptyString; options := None;
     readOnly := false; calculated := false; externalOptions := false;
     deleted := false; hubspotDefined := false |}.

(** The entity the store keeps for a transmitted payload. *)
Definition entity_of_data (d : PropertyData) : Property :=
  {| name := data_name d; label := data_label d; type := data_type d;
     description := data_description d; groupName := data_groupName d;
     fieldType := data_fieldType d; options := None;
     readOnly := false; calculated := false; externalOptions := false;
     deleted := false; hubspotDefined := false |}.

(** The path segment under which an entity is addressed. *)
Definition key (p : Property) : string := to_string (name p).

Definition has_key (k : string) (p : Property) : bool := String.eqb (key p) k.

Definition status_error (status : Z) (msg : string) : AxiosError :=
  {| message := msg; response := Some (status, BEmpty) |}.

Definition not_found : AxiosError :=
  status_error 404 "Request failed with status code 404".

Definition store_get (s : Store) (u : string) : (AxiosError + Body) * Store :=
  match strip_prefix (BASE_URL +:+ "/named/") u with
  | Some k =>
      match List.find (has_key k) (definitions s) with
      | Some p => (inr (BObject p), s)
      | None => (inl not_found, s)
      end
  | None =>
      if String.eqb u GROUPS_URL
      then (inr (BArray (Some <$> (named_object <$> groups s))), s)
      else if String.eqb u BASE_URL then (inr (BArray (Some <$> definitions s)), s)
      else (inl not_found, s)
  end.

Definition store_post (s : Store) (u : string) (d : RequestData)
    : (AxiosError + Body) * Store :=
  match d with
  | GroupData g _ =>
      if String.eqb u GROUPS_URL then
        (inr (BObject (named_object g)),
         {| groups := groups s ++ [g]; definitions := definitions s |})
      else (inl not_found, s)
  | DefinitionData pd =>
      if String.eqb u BASE_URL then
        (inr (BObject (entity_of_data pd)),
         {| groups := groups s; definitions := definitions s ++ [entity_of_data pd] |})
      else (inl not_found, s)
  | NoData => (inl (status_error 400 "Request failed with status code 400"), s)
  end.

(** A full replace of the entity addressed by the URL; its name stays. *)
Definition replace_with (k : string) (pd : PropertyData) (p : Property) : Property :=
  if has_key k p then
    {| name := name p; label := data_label pd; type := data_type pd;
       description := data_description pd; groupName := data_groupName pd;
       fieldType := data_fieldType pd; options := None;
       readOnly := readOnly p; calculated := calculated p;
       externalOptions := externalOptions p; deleted := deleted p;
       hubspotDefined := hubspotDefined p |}
  else p.

Definition store_put (s : Store) (u : string) (d : RequestData)
    : (AxiosError + Body) * Store :=
  match strip_prefix (BASE_URL +:+ "/named/") u, d with
  | Some k, DefinitionData pd =>
      match List.find (has_key k) (definitions s) with
      | Some p =>
          (inr (BObject (replace_with k pd p)),
           {| groups := groups s;
              definitions := replace_with k pd <$> definitions s |})
      | None => (inl not_found, s)
      end
  | _, _ => (inl not_found, s)
  end.

Definition store_delete (s : Store) (u : string) : (AxiosError + Body) * Store :=
  match strip_prefix (BASE_URL +:+ "/named/") u with
  | Some k =>
      match List.find (has_key k) (definitions s) with
      | Some p =>
          if readOnly p then
            (inl (status_error 405 "Request failed with status code 405"), s)
          else
            (inr BEmpty,
             {| groups := groups s;
                definitions := List.filter (fun q => negb (has_key k q)) (definitions s) |})
      | None => (inl not_found, s)
      end
  | None =>
      match strip_prefix (GROUPS_URL +:+ "/") u with
      | Some g =>
          if bool_decide (Some g ∈ groups s) then
            (inr BEmpty,
             {| groups := List.filter (fun h => negb (bool_decide (h = Some g))) (groups s);
                definitions := definitions s |})
          else (inl not_found, s)
      | None => (inl not_found, s)
      end
  end.

Definition store_remote (s : Store) (req : Request) : (AxiosError + Body) * Store :=
  let u := transmitted (url req) in
  match method req with
  | GET => store_get s u
  | POST => store_post s u (data req)
  | PUT => store_put s u (data req)
  | DELETE => store_delete s u
  end.

(** ** Concrete platforms for the examples *)

(** A stand-in for [JSON.parse] on the two option cells the examples use:
    the empty array, and a lone opening brace, which [JSON.parse] rejects. *)
Definition example_parse (s : string) : string + json :=
  if String.eqb s "[]" then inr (JArr [])
  else inl "Unexpected end of JSON input".

Definition example_stringify (b : Body) : string :=
  match b with
  | BArray _ => "[...]"
  | BObject _ => "{...}"
  | BNull => "null"
  | BEmpty => EmptyString
  end.

(** A file system whose only file, [export.csv], holds [rows]. *)
Definition example_files (rows : list row) (path : string) : string + list row :=
  if String.eqb path "export.csv" then inr rows
  else inl "ENOENT: no such file or directory".

(** Any process whose server is the reference store. *)
Definition reference_platform (api_key : value) (parse : string -> string + json)
    (stringify : Body -> string) (files : string -> string + list row) : Platform :=
  {| World := Store;
     remote := store_remote;
     API_KEY := api_key;
     JSON_parse := parse;
     JSON_stringify := stringify;
     read_csv := files |}.

(** The reference store with the example file system. *)
Definition store_platform (rows : list row) : Platform :=
  reference_platform (Some "secret") example_parse example_stringify
    (example_files rows).

Definition service_unavailable : AxiosError :=
  status_error 503 "Request failed with status code 503".

(** A platform whose server answers every request with status 503. *)
Definition outage_platform (rows : list row) : Platform :=
  {| World := unit;
     remote := fun w _ => (inl service_unavailable, w);
     API_KEY := Some "secret";
     JSON_parse := example_parse;
     JSON_stringify := example_stringify;
     read_csv := example_files rows |}.

Definition empty_store : Store := {| groups := []; definitions := [] |}.

(** A row of an export, from the cells the program reads. *)
Definition example_row (internal group opts defined : string) : row :=
  <[ "Internal name" := internal ]>
    (<[ "Group name" := group ]>
       (<[ "Options" := opts ]>
          (<[ "Hubspot defined" := defined ]>
             (<[ "Form field" := "true" ]> ∅)))).


(** The rows and definitions of the examples. *)
Definition score_row : row := example_row "score" "leadinfo" "[]" "false".
Definition broken_row : row := example_row "rating" "leadinfo" "{" "false".
Definition built_in_row : row := example_row "email" "contactinformation" "[]" "true".
Definition score : Property := property_of_row score_row.

(** A remote entity, and a store with a grouping, two custom definitions
    (one of them read-only) and a built-in one. *)
Definition entity (n : string) (read_only built_in : bool) : Property :=
  {| name := Some n; label := Some n; type := Some "string"; description := None;
     groupName := Some "leadinfo"; fieldType := "text"; options := None;
     readOnly := read_only; calculated := false; externalOptions := false;
     deleted := false; hubspotDefined := built_in |}.

Definition example_store : Store :=
  {| groups := [Some "leadinfo"];
     definitions := [entity "a" false false; entity "c" true false;
                     entity "email" false true] |}.

(** The files and processes of the examples. *)
Definition import_rows_example : list row := [score_row; broken_row; built_in_row].
Definition import_example : Platform := store_platform import_rows_example.

Definition twice_rows_example : list row := [score_row; broken_row; score_row].
Definition twice_example : Platform := store_platform twice_rows_example.

Definition broken_example : Platform := store_platform [broken_row].

Definition deletion_rows_example : list row :=
  [example_row "a" "leadinfo" "[]" "false";
   example_row "b" "leadinfo" "[]" "false";
   example_row "c" "leadinfo" "[]" "false";
   example_row "a" "leadinfo" "[]" "false";
   built_in_row].
Definition deletion_example : Platform := store_platform deletion_rows_example.

Definition outage_example : Platform := outage_platform deletion_rows_example.

Definition score_example : Platform := store_platform [score_row].

Definition a_b_example : Platform :=
  store_platform [example_row "a" "leadinfo" "[]" "false";
                  example_row "b" "leadinfo" "[]" "false"].

Definition c_example : Platform := store_platform [example_row "c" "leadinfo" "[]" "false"].

(** Method and URL of each request among the events. *)
Definition calls (evs : list Event) : list (Method * string) :=
  (fun req => (method req, url req)) <$> requests evs.

Definition node_argv (command path : string) : list string :=
  ["node"; "index.ts"; command; path].

(** ** Vocabulary of the statements *)

(** What [getPropertyDetails] makes of the server's answer. *)
Definition lookup_result (res : AxiosError + Body) : option Body :=
  match res with
  | inr body => Some body
  | inl _ => None
  end.

Definition succeeded (res : AxiosError + Body) : bool :=
  match res with
  | inr _ => true
  | inl _ => false
  end.

(** A request that creates or updates a definition. *)
Definition is_write (req : Request) : bool :=
  match data req with
  | DefinitionData _ => true
  | _ => false
  end.

Definition writes (evs : list Event) : list Request :=
  List.filter is_write (requests evs).

Definition is_sleep (ev : Event) : bool :=
  match ev with
  | Sleep _ => true
  | _ => false
  end.

(** What [getAllCustomProperties] makes of the server's answer: the entries
    of the listing that are not built in, and nothing when the request
    failed, the body is not an array, or the array holds a [null]. *)
Definition snapshot_of (res : AxiosError + Body) : list Property :=
  match res with
  | inr (BArray l) =>
      if forallb (fun element : option Property => bool_decide (is_Some element)) l
      then List.filter (fun prop => negb (hubspotDefined prop)) (omap id l)
      else []
  | _ => []
  end.

(** A detail fetch that failed, or fetched an entity whose [readOnly] is
    true. *)
Definition protected (res : AxiosError + Body) : bool :=
  match res with
  | inl _ => true
  | inr (BObject p) => readOnly p
  | inr _ => false
  end.

(** The rows the Reconciler and the Batch Deleter keep. *)
Definition not_built_in (r : row) : bool := negb (is_true (r !! "Hubspot defined")).

(** The distinct values of a list, in the order of their first occurrence. *)
Fixpoint first_occurrences (l : list value) : list value :=
  match l with
  | [] => []
  | v :: l' => v :: List.filter (fun x => negb (bool_decide (x = v))) (first_occurrences l')
  end.

Section Vocabulary.
Context {P : Platform}.

(** Whether the payload of a definition can be built. *)
Definition transmissible (prop : Property) : bool :=
  match options_value (options prop) with
  | inr _ => true
  | inl _ => false
  end.

(** The requests of one grouping check: the listing, then possibly the
    creation of the grouping. *)
Definition grouping_checked (g : value) (reqs : list Request) : Prop :=
  reqs = [groups_list_request] \/ reqs = [groups_list_request; group_create_request g].

(** The requests of one create-or-update call: the lookup, then the create
    or update unless the options cannot be deserialized. *)
Definition looked_up_and_written (prop : Property) (reqs : list Request) : Prop :=
  match options_value (options prop) with
  | inr opts =>
      exists existing : bool,
        reqs = [details_request (name prop); definition_request existing prop opts]
  | inl _ => reqs = [details_request (name prop)]
  end.

(** The requests of a reconciliation of [props]: for each definition in
    turn, its grouping check and then its lookup and write. *)
Inductive reconciled : list Property -> list Request -> Prop :=
  | reconciled_nil : reconciled [] []
  | reconciled_cons prop props checks written rest :
      grouping_checked (groupName prop) checks ->
      looked_up_and_written prop written ->
      reconciled props rest ->
      reconciled (prop :: props) (checks ++ written ++ rest).

(** The create and update requests of a reconciliation: one for each
    definition whose payload can be built. *)
Definition written_for (prop : Property) (req : Request) : Prop :=
  exists (existing : bool) (opts : option json),
    options_value (options prop) = inr opts /\
    req = definition_request existing prop opts.

(** A request the Batch Deleter makes on behalf of the target [n]. *)
Definition made_for (n : value) (req : Request) : Prop :=
  req = details_request n \/ req = delete_request n.

(** The messages of the Batch Deleter about one target. *)
Definition not_found_log (n : value) : Event :=
  ConsoleLog [Text ("Property not found in custom properties: " +:+ to_string n)].

Definition skipping_log (n : value) : Event :=
  ConsoleLog [Text ("Skipping read-only or non-existent property: " +:+ to_string n)].

Definition processing_log (size index : nat) (n : value) : Event :=
  ConsoleLog [Text ("Processing deletion " +:+ pretty index +:+ " of " +:+ pretty size
                      +:+ ": " +:+ to_string n)].

(** What two runs against the same store are expected to send.  [present]
    holds the keys the store has; a definition whose payload can be built is
    updated when its key is present and created otherwise, after which its
    key is present. *)
Definition add_key (present : list string) (k : string) : list string :=
  if bool_decide (k ∈ present) then present else present ++ [k].

Fixpoint expected_writes (present : list string) (props : list Property)
    : list Request :=
  match props with
  | [] => []
  | prop :: rest =>
      match options_value (options prop) with
      | inr opts =>
          definition_request (bool_decide (key prop ∈ present)) prop opts
            :: expected_writes (add_key present (key prop)) rest
      | inl _ => expected_writes present rest
      end
  end.

Fixpoint final_keys (present : list string) (props : list Property) : list string :=
  match props with
  | [] => present
  | prop :: rest =>
      if transmissible prop then final_keys (add_key present (key prop)) rest
      else final_keys present rest
  end.

(** One update for each definition whose payload can be built. *)
Fixpoint updates (props : list Property) : list Request :=
  match props with
  | [] => []
  | prop :: rest =>
      match options_value (options prop) with
      | inr opts => definition_request true prop opts :: updates rest
      | inl _ => updates rest
      end
  end.

End Vocabulary.

(** The keys the reference store holds. *)
Definition keys (s : Store) : list string := key <$> definitions s.


(** ** Further vocabulary *)

Definition is_report (ev : Event) : bool :=
  match ev with
  | ConsoleError [Text _; Names _] => true
  | _ => false
  end.

(** The 'Internal name' cells of the rows that are not built in. *)
Definition custom_names (rows : list row) : list value :=
  (fun r : row => r !! "Internal name") <$> List.filter not_built_in rows.

Section FurtherVocabulary.
Context {P : Platform}.

(** The requests one workflow or another sends. *)
Definition import_request (req : Request) : Prop :=
  req = groups_list_request \/
  (exists g, req = group_create_request g) \/
  (exists n, req = details_request n) \/
  (exists existing prop opts, req = definition_request existing prop opts).

Definition deletion_request (req : Request) : Prop :=
  req = properties_list_request \/
  (exists n, req = details_request n) \/
  (exists n, req = delete_request n).

End FurtherVocabulary.

Definition is_error (ev : Event) : bool :=
  match ev with
  | ConsoleError _ => true
  | _ => false
  end.

(** * Properties *)

Ltac reduce :=
  cbn [after outcome world output fst snd app requests writes List.filter is_write
       data succeeded lookup_result found details_readOnly negb andb orb
       snapshot_of is_sleep].

Ltac run :=
  unfold console_log, console_error, sleep;
  unfold bind, try_catch, after, ret, throw, emit, axios;
  reduce.

Section Running.
Context {P : Platform}.

Lemma bind_returned {A B} (m : M A) (k : A -> M B) (w : World) (a : A) :
  outcome (m w) = Returned a ->
  bind m k w = after (output (m w)) (k a (world (m w))).
Proof. unfold bind. destruct (m w) as [[a' | e] w1 evs]; simpl; congruence. Qed.

Lemma bind_emit {B} (ev : Event) (k : unit -> M B) (w : World) :
  bind (emit ev) k w = after [ev] (k tt w).
Proof. reflexivity. Qed.

Lemma bind_console_log {B} (msg : string) (k : unit -> M B) (w : World) :
  bind (console_log msg) k w = after [ConsoleLog [Text msg]] (k tt w).
Proof. reflexivity. Qed.

Lemma bind_ret {A B} (a : A) (k : A -> M B) (w : World) :
  bind (ret a) k w = after [] (k a w).
Proof. reflexivity. Qed.

Lemma bind_assoc {A B C} (m : M A) (k : A -> M B) (h : B -> M C) (w : World) :
  bind (bind m k) h w = bind m (fun a => bind (k a) h) w.
Proof.
  unfold bind. destruct (m w) as [[a | e] w1 evs1]; [| done].
  destruct (k a w1) as [[b | e] w2 evs2]; cbn; [| done].
  destruct (h b w2) as [o w3 evs3]. cbn. by rewrite app_assoc.
Qed.

Lemma bind_ext {A B} (m : M A) (k k' : A -> M B) (w : World) :
  (forall a w', k a w' = k' a w') -> bind m k w = bind m k' w.
Proof.
  intros Hk. unfold bind. destruct (m w) as [[a | e] w1 evs1]; [| done].
  by rewrite Hk.
Qed.

Lemma after_nil {A} (r : Run World A) : after [] r = r.
Proof. by destruct r. Qed.

Lemma output_after {A} (evs : list Event) (r : Run World A) :
  output (after evs r) = evs ++ output r.
Proof. by destruct r. Qed.

Lemma outcome_after {A} (evs : list Event) (r : Run World A) :
  outcome (after evs r) = outcome r.
Proof. by destruct r. Qed.

Lemma world_after {A} (evs : list Event) (r : Run World A) :
  world (after evs r) = world r.
Proof. by destruct r. Qed.

Lemma requests_app (evs evs' : list Event) :
  requests (evs ++ evs') = requests evs ++ requests evs'.
Proof.
  induction evs as [| [] evs IH]; simpl; [done | | done | done | done].
  by rewrite IH.
Qed.

Lemma getPropertyDetails_run (n : value) (w : World) :
  getPropertyDetails n w =
    {| outcome := Returned (lookup_result (remote w (details_request n)).1);
       world := (remote w (details_request n)).2;
       output := [Http (details_request n) (remote w (details_request n)).1] |}.
Proof.
  unfold getPropertyDetails. run.
  destruct (remote w (details_request n)) as [[e | body] w']; reflexivity.
Qed.


Lemma deleteProperty_run (n : value) (w : World) :
  deleteProperty n w =
    let res := (remote w (delete_request n)).1 in
    {| outcome := Returned (succeeded res);
       world := (remote w (delete_request n)).2;
       output :=
         [Http (delete_request n) res;
          match res with
          | inl e =>
              ConsoleError [Text ("Error deleting property " +:+ to_string n +:+ ":");
                            Text (message e)]
          | inr _ => ConsoleLog [Text ("Deleted property: " +:+ to_string n)]
          end] |}.
Proof.
  unfold deleteProperty. run.
  destruct (remote w (delete_request n)) as [[e | body] w']; reflexivity.
Qed.

Lemma deleteGroup_run (g : value) (w : World) :
  deleteGroup g w =
    let res := (remote w (group_delete_request g)).1 in
    {| outcome := Returned tt;
       world := (remote w (group_delete_request g)).2;
       output :=
         [Http (group_delete_request g) res;
          match res with
          | inl e =>
              ConsoleError [Text ("Error deleting group " +:+ to_string g +:+ ":");
                            Text (message e)]
          | inr _ => ConsoleLog [Text ("Deleted group: " +:+ to_string g)]
          end] |}.
Proof.
  unfold deleteGroup. run.
  destruct (remote w (group_delete_request g)) as [[e | body] w']; reflexivity.
Qed.

(** The grouping check never throws and sends the listing request first;
    the only other request it can send is the creation of the grouping. *)
Lemma createGroupIfNotExists_run (g : value) (w : World) :
  outcome (createGroupIfNotExists g w) = Returned tt /\
  (requests (output (createGroupIfNotExists g w)) = [groups_list_request] \/
   requests (output (createGroupIfNotExists g w)) =
     [groups_list_request; group_create_request g]) /\
  writes (output (createGroupIfNotExists g w)) = [].
Proof.
  unfold createGroupIfNotExists, data_some, of_result. run.
  destruct (remote w groups_list_request) as [[e | body] w1]; reduce; [auto |].
  destruct body as [l | p | |]; reduce; [| auto | auto | auto].
  destruct (array_some _ _ l) as [error | []]; reduce; [auto | auto |].
  destruct (remote w1 (group_create_request g)) as [[e | body] w2]; reduce; auto.
Qed.

(** [createOrUpdateProperty] never throws.  It looks the name up and then,
    unless the options cannot be deserialized, sends one request chosen by
    what the lookup returned. *)
Lemma createOrUpdateProperty_run (prop : Property) (w : World) :
  let lookup := remote w (details_request (name prop)) in
  let existing := found (lookup_result lookup.1) in
  match options_value (options prop) with
  | inr opts =>
      let write := remote lookup.2 (definition_request existing prop opts) in
      outcome (createOrUpdateProperty prop w) = Returned (succeeded write.1) /\
      world (createOrUpdateProperty prop w) = write.2 /\
      requests (output (createOrUpdateProperty prop w)) =
        [details_request (name prop); definition_request existing prop opts]
  | inl msg =>
      createOrUpdateProperty prop w =
        {| outcome := Returned false;
           world := lookup.2;
           output :=
             [Http (details_request (name prop)) lookup.1;
              ConsoleError
                [Text ("Error processing property " +:+ to_string (name prop) +:+ ":");
                 Text msg]] |}
  end.
Proof.
  unfold createOrUpdateProperty, parse_options, getPropertyDetails. run.
  destruct (remote w (details_request (name prop))) as [[e | body] w1]; reduce;
    (destruct (options_value (options prop)) as [msg | opts]; reduce; [reflexivity |]);
    (destruct (remote w1 _) as [[e' | body'] w2]; reduce; [| auto]);
    destruct e' as [m [[st b] |]]; reduce; auto.
Qed.

(** *** The loop of the Reconciler *)

Lemma import_rows (acc : list Property) (rows : list row) :
  foldl import_on_data acc rows =
    acc ++ (property_of_row <$> List.filter not_built_in rows).
Proof.
  revert acc. induction rows as [| r rows IH]; intros acc; simpl.
  - by rewrite app_nil_r.
  - rewrite IH. unfold import_on_data, not_built_in.
    destruct (negb (is_true (r !! "Hubspot defined"))); simpl; [| done].
    by rewrite <- app_assoc.
Qed.

Lemma import_step_run (total index : nat) (prop : Property) (w : World) :
  outcome (import_step total index prop w) = Returned tt /\
  exists checks written,
    requests (output (import_step total index prop w)) = checks ++ written /\
    grouping_checked (groupName prop) checks /\
    looked_up_and_written prop written.
Proof.
  unfold import_step, console_log. rewrite bind_emit.
  destruct (createGroupIfNotExists_run (groupName prop) w) as (Hg & Hchecks & _).
  rewrite (bind_returned _ _ _ tt Hg).
  set (w1 := world (createGroupIfNotExists _ _)).
  pose proof (createOrUpdateProperty_run prop w1) as Hcu.
  assert (exists b, outcome (createOrUpdateProperty prop w1) = Returned b) as [b Hb].
  { cbv zeta in Hcu. destruct (options_value (options prop)).
    - rewrite Hcu. eauto.
    - destruct Hcu as [-> _]. eauto. }
  rewrite (bind_returned _ _ _ b Hb).
  rewrite !outcome_after, !output_after, !requests_app. split; [done |].
  exists (requests (output (createGroupIfNotExists (groupName prop) w))),
    (requests (output (createOrUpdateProperty prop w1))).
  split; [by rewrite app_nil_r |]. split; [exact Hchecks |].
  unfold looked_up_and_written. cbv zeta in Hcu.
  destruct (options_value (options prop)).
  - by rewrite Hcu.
  - destruct Hcu as (_ & _ & ->). eauto.
Qed.

Lemma import_loop_reconciled (total index : nat) (props : list Property) (w : World) :
  outcome (import_loop total index props w) = Returned tt /\
  reconciled props (requests (output (import_loop total index props w))).
Proof.
  revert index w. induction props as [| prop props IH]; intros index w.
  - split; [done | constructor].
  - cbn [import_loop].
    destruct (import_step_run total index prop w)
      as (Hstep & checks & written & Hreqs & Hchecks & Hwritten).
    rewrite (bind_returned _ _ _ tt Hstep).
    rewrite outcome_after, output_after, requests_app, Hreqs, <- app_assoc.
    destruct (IH (S index) (world (import_step total index prop w))) as [Hout Hrec].
    split; [done |]. by constructor.
Qed.

Lemma importProperties_run (path : string) (rows : list row) (w : World) :
  read_csv path = inr rows ->
  outcome (importProperties path w) = Returned tt /\
  reconciled (property_of_row <$> List.filter not_built_in rows)
    (requests (output (importProperties path w))).
Proof.
  intros Hread. unfold importProperties, read_rows. rewrite Hread.
  unfold console_log. rewrite bind_emit, bind_ret, after_nil. cbv zeta.
  rewrite import_rows. cbn [app].
  set (props := property_of_row <$> List.filter not_built_in rows).
  rewrite bind_emit.
  destruct (import_loop_reconciled (length props) 0 props w) as [Hout Hrec].
  rewrite (bind_returned _ _ _ tt) by exact Hout.
  rewrite !outcome_after, !output_after, !requests_app. cbn.
  by rewrite app_nil_r.
Qed.

Lemma writes_app (evs evs' : list Event) : writes (evs ++ evs') = writes evs ++ writes evs'.
Proof. unfold writes. by rewrite requests_app, List.filter_app. Qed.

Lemma importProperties_loop (path : string) (rows : list row) (w : World) :
  read_csv path = inr rows ->
  let props := property_of_row <$> List.filter not_built_in rows in
  world (importProperties path w) = world (import_loop (length props) 0 props w) /\
  writes (output (importProperties path w)) =
    writes (output (import_loop (length props) 0 props w)).
Proof.
  intros Hread props. unfold importProperties, read_rows. rewrite Hread.
  rewrite bind_console_log, bind_ret, after_nil. cbv zeta.
  rewrite import_rows. cbn [app]. fold props.
  rewrite bind_console_log.
  destruct (import_loop_reconciled (length props) 0 props w) as [Hout _].
  rewrite (bind_returned _ _ _ tt Hout).
  rewrite !world_after, !output_after, !writes_app. cbn. by rewrite app_nil_r.
Qed.

Lemma reconciled_nil_inv (reqs : list Request) : reconciled [] reqs -> reqs = [].
Proof. by inversion 1. Qed.

Lemma reconciled_app_inv (props1 props2 : list Property) (reqs : list Request) :
  reconciled (props1 ++ props2) reqs ->
  exists reqs1 reqs2,
    reqs = reqs1 ++ reqs2 /\ reconciled props1 reqs1 /\ reconciled props2 reqs2.
Proof.
  revert reqs. induction props1 as [| prop props1 IH]; intros reqs Hrec; simpl in Hrec.
  - exists [], reqs. split; [done |]. split; [constructor | done].
  - inversion Hrec as [| ? ? checks written rest Hc Hw Hrest]; subst.
    destruct (IH rest Hrest) as (reqs1 & reqs2 & -> & H1 & H2).
    exists (checks ++ written ++ reqs1), reqs2.
    split; [by rewrite <- !app_assoc |]. split; [by constructor | done].
Qed.

Lemma reconciled_writes (props : list Property) (reqs : list Request) :
  reconciled props reqs ->
  Forall2 written_for (List.filter transmissible props) (List.filter is_write reqs).
Proof.
  induction 1 as [| prop props checks written rest Hc Hw _ IH]; [constructor |].
  rewrite !List.filter_app. cbn [List.filter].
  assert (List.filter is_write checks = []) as -> by (by destruct Hc as [-> | ->]).
  unfold looked_up_and_written in Hw. unfold transmissible at 1.
  destruct (options_value (options prop)) as [msg | opts] eqn:Hopts.
  - by rewrite Hw.
  - destruct Hw as [existing ->]. cbn. constructor; [| done].
    by exists existing, opts.
Qed.

(** *** The loop of the Batch Deleter *)

Lemma array_filter_spec (field : string) (f : Property -> bool)
    (l : list (option Property)) :
  array_filter field f l =
    if forallb (fun element : option Property => bool_decide (is_Some element)) l
    then inr (List.filter f (omap id l))
    else inl (null_field field).
Proof.
  induction l as [| [p |] l IH]; [done | | done].
  cbn [array_filter forallb omap list_omap]. rewrite IH.
  rewrite bool_decide_eq_true_2 by eauto. cbn [andb id List.filter].
  by destruct (forallb _ l), (f p).
Qed.

Lemma array_filter_objects (field : string) (f : Property -> bool)
    (ps : list Property) :
  array_filter field f (Some <$> ps) = inr (List.filter f ps).
Proof.
  induction ps as [| p ps IH]; [done |].
  rewrite fmap_cons. cbn [array_filter List.filter]. rewrite IH. by destruct (f p).
Qed.

Lemma array_some_objects (field : string) (f : Property -> bool)
    (ps : list Property) :
  array_some field f (Some <$> ps) = inr (existsb f ps).
Proof.
  induction ps as [| p ps IH]; [done |].
  rewrite fmap_cons. cbn [array_some existsb]. by destruct (f p).
Qed.

Lemma getAllCustomProperties_run (w : World) :
  outcome (getAllCustomProperties w) =
    Returned (snapshot_of (remote w properties_list_request).1) /\
  world (getAllCustomProperties w) = (remote w properties_list_request).2 /\
  requests (output (getAllCustomProperties w)) = [properties_list_request] /\
  List.filter is_sleep (output (getAllCustomProperties w)) = [].
Proof.
  unfold getAllCustomProperties, data_filter, of_result. run.
  destruct (remote w properties_list_request) as [[e | [l | p | |]] w1]; reduce;
    try (repeat split; reflexivity).
  rewrite array_filter_spec.
  destruct (forallb _ l); reduce; repeat split; reflexivity.
Qed.

Lemma deletion_step_absent (cp : list Property) (size index : nat)
    (failed : list value) (n : value) (w : World) :
  in_snapshot cp n = false ->
  deletion_step cp size index failed n w =
    {| outcome := Returned failed; world := w;
       output := [processing_log size index n; not_found_log n] |}.
Proof. intros Hn. unfold deletion_step. rewrite Hn. reflexivity. Qed.

Lemma deletion_step_protected (cp : list Property) (size index : nat)
    (failed : list value) (n : value) (w : World) :
  in_snapshot cp n = true ->
  protected (remote w (details_request n)).1 = true ->
  deletion_step cp size index failed n w =
    {| outcome := Returned (failed ++ [n]);
       world := (remote w (details_request n)).2;
       output :=
         [processing_log size index n;
          Http (details_request n) (remote w (details_request n)).1;
          skipping_log n;
          Sleep 1000] |}.
Proof.
  intros Hn Hres. unfold deletion_step. rewrite Hn.
  unfold console_log. rewrite bind_emit.
  rewrite (bind_returned _ _ _ _ (f_equal outcome (getPropertyDetails_run n w))).
  rewrite getPropertyDetails_run. cbn [output world outcome].
  destruct (remote w (details_request n)) as [[e | [l | p | |]] w1];
    cbn in Hres |- *; try discriminate; [done |].
  rewrite Hres. reflexivity.
Qed.

(** Whatever the server answers, a step returns, adds at most its own name
    to the failures, and sends requests for its own name only, and only when
    the name is in the snapshot. *)
Lemma deletion_step_spec (cp : list Property) (size index : nat)
    (failed : list value) (n : value) (w : World) :
  exists failed',
    outcome (deletion_step cp size index failed n w) = Returned failed' /\
    (failed' = failed \/ failed' = failed ++ [n] /\ in_snapshot cp n = true) /\
    Forall (fun req => in_snapshot cp n = true /\ made_for n req)
      (requests (output (deletion_step cp size index failed n w))).
Proof.
  destruct (in_snapshot cp n) eqn:Hn.
  2: { rewrite deletion_step_absent by done. exists failed. cbn. auto. }
  unfold deletion_step, getPropertyDetails, deleteProperty. rewrite Hn. run.
  destruct (remote w (details_request n)) as [[e | [l | p | |]] w1]; reduce;
    try destruct (readOnly p); reduce;
    try (destruct (remote w1 (delete_request n)) as [[e' | b'] w2]; reduce);
    eexists; (split; [reflexivity |]); (split; [auto |]);
    repeat (apply Forall_cons_2; [split; [done | unfold made_for; auto] |]);
    apply Forall_nil_2.
Qed.

Lemma deletion_loop_app (cp : list Property) (size index : nat)
    (failed : list value) (pre post : list value) (w : World) :
  deletion_loop cp size index failed (pre ++ post) w =
    bind (deletion_loop cp size index failed pre)
         (fun failed' => deletion_loop cp size (length pre + index) failed' post) w.
Proof.
  revert index failed w. induction pre as [| n pre IH]; intros index failed w.
  - cbn [app deletion_loop length]. by rewrite bind_ret, after_nil.
  - cbn [app deletion_loop length]. rewrite bind_assoc.
    apply bind_ext. intros f1 w1. rewrite IH.
    apply bind_ext. intros f2 w2.
    by replace (length pre + S index)%nat with (S (length pre) + index)%nat by lia.
Qed.

Lemma deletion_loop_spec (cp : list Property) (size index : nat)
    (failed : list value) (targets : list value) (w : World) :
  exists more,
    outcome (deletion_loop cp size index failed targets w) = Returned (failed ++ more) /\
    Forall (fun n => n ∈ targets /\ in_snapshot cp n = true) more /\
    Forall (fun req => exists n, n ∈ targets /\ in_snapshot cp n = true /\ made_for n req)
      (requests (output (deletion_loop cp size index failed targets w))).
Proof.
  revert index failed w. induction targets as [| n targets IH]; intros index failed w.
  - exists []. cbn. by rewrite app_nil_r.
  - cbn [deletion_loop].
    destruct (deletion_step_spec cp size index failed n w) as (f1 & Hstep & Hf1 & Hreqs).
    rewrite (bind_returned _ _ _ _ Hstep).
    rewrite outcome_after, output_after, requests_app.
    destruct (IH (S index) f1 (world (deletion_step cp size index failed n w)))
      as (more & Hout & Hmore & Hrest).
    assert (Forall (fun m => m ∈ n :: targets /\ in_snapshot cp m = true) more) as Hmore'.
    { eapply Forall_impl; [exact Hmore |]. intros m [? ?]. split; [by right | done]. }
    assert (Forall (fun req => exists m, m ∈ n :: targets /\ in_snapshot cp m = true /\
                                         made_for m req)
              (requests (output (deletion_loop cp size (S index) f1 targets
                 (world (deletion_step cp size index failed n w)))))) as Hrest'.
    { eapply Forall_impl; [exact Hrest |]. intros req (m & ? & ? & ?).
      exists m. split; [by right | done]. }
    assert (Forall (fun req => exists m, m ∈ n :: targets /\ in_snapshot cp m = true /\
                                         made_for m req)
              (requests (output (deletion_step cp size index failed n w)))) as Hreqs'.
    { eapply Forall_impl; [exact Hreqs |]. intros req [? ?].
      exists n. split; [by left | done]. }
    destruct Hf1 as [-> | [-> Hn]].
    + exists more. rewrite Hout. split; [done |]. split; [done |].
      by apply Forall_app.
    + exists (n :: more). rewrite Hout, <- app_assoc. split; [done |].
      split; [| by apply Forall_app].
      constructor; [| done]. split; [by left | done].
Qed.

Lemma deletePropertiesFromCSV_run (path : string) (rows : list row) (w : World)
    (failed : list value) :
  read_csv path = inr rows ->
  let cp := snapshot_of (remote w properties_list_request).1 in
  let targets := foldl delete_on_data [] rows in
  let loop := deletion_loop cp (length targets) 1 [] targets
                (remote w properties_list_request).2 in
  outcome loop = Returned failed ->
  outcome (deletePropertiesFromCSV path w) = Returned failed /\
  world (deletePropertiesFromCSV path w) = world loop /\
  requests (output (deletePropertiesFromCSV path w)) =
    properties_list_request :: requests (output loop) /\
  List.filter is_sleep (output (deletePropertiesFromCSV path w)) =
    List.filter is_sleep (output loop) /\
  (forall ev, ev ∈ output loop -> ev ∈ output (deletePropertiesFromCSV path w)) /\
  (failed <> [] ->
   ConsoleError [Text "Failed to delete the following properties:"; Names failed]
     ∈ output (deletePropertiesFromCSV path w)).
Proof.
  intros Hread cp targets loop Hloop.
  destruct (getAllCustomProperties_run w) as (Hsnap & Hw1 & Hreqs & Hsleep).
  set (run := deletePropertiesFromCSV path w).
  assert (run =
    after [ConsoleLog [Text ("Starting property deletion from file: " +:+ path)]]
      (after (output (getAllCustomProperties w))
         (after [ConsoleLog [Text ("Found " +:+ pretty (length targets)
                                     +:+ " properties to delete.")]]
            (after (output loop)
               (bind (if bool_decide (0 < length failed)%nat
                      then console_error
                             [Text "Failed to delete the following properties:";
                              Names failed]
                      else ret tt)
                     (fun _ => bind (console_log "Property deletion completed.")
                                 (fun _ => ret failed))
                     (world loop)))))) as ->.
  { subst run. unfold deletePropertiesFromCSV, read_rows. rewrite Hread.
    rewrite bind_console_log.
    rewrite (bind_returned _ _ _ _ Hsnap). rewrite bind_ret, after_nil. cbv zeta.
    rewrite bind_console_log. rewrite Hw1.
    fold cp targets loop. by rewrite (bind_returned _ _ _ _ Hloop). }
  set (snap := getAllCustomProperties w) in *.
  assert (exists report,
    bind (if bool_decide (0 < length failed)%nat
          then console_error
                 [Text "Failed to delete the following properties:"; Names failed]
          else ret tt)
         (fun _ => bind (console_log "Property deletion completed.")
                     (fun _ => ret failed)) (world loop) =
      {| outcome := Returned failed; world := world loop;
         output := report ++ [ConsoleLog [Text "Property deletion completed."]] |} /\
    (report = [] \/
     report = [ConsoleError [Text "Failed to delete the following properties:";
                             Names failed]]) /\
    (failed <> [] -> report <> [])) as (report & -> & Hreport & Hnonempty).
  { destruct failed; eexists; (split; [reflexivity |]); split; auto; done. }
  rewrite !outcome_after, !world_after, !output_after, !requests_app, Hreqs.
  rewrite !List.filter_app, Hsleep. cbn [outcome world output].
  assert (requests report = [] /\ List.filter is_sleep report = []) as [Hr1 Hr2]
    by (by destruct Hreport as [-> | ->]).
  rewrite !requests_app, !List.filter_app, Hr1, Hr2.
  cbn [requests List.filter is_sleep app].
  rewrite !app_nil_r. repeat split; try done.
  - intros ev Hev. repeat (rewrite elem_of_cons || rewrite elem_of_app). auto 10.
  - intros Hfailed. specialize (Hnonempty Hfailed).
    destruct Hreport as [-> | ->]; [done |].
    repeat (rewrite elem_of_cons || rewrite elem_of_app). auto 10.
Qed.

Lemma deletion_loop_logs_absent (cp : list Property) (size index : nat)
    (failed targets : list value) (n : value) (w : World) :
  n ∈ targets ->
  in_snapshot cp n = false ->
  not_found_log n ∈ output (deletion_loop cp size index failed targets w).
Proof.
  intros Hin Hn. revert index failed w.
  induction targets as [| m targets IH]; intros index failed w; [by inversion Hin |].
  cbn [deletion_loop].
  destruct (deletion_step_spec cp size index failed m w) as (f1 & Hstep & _).
  rewrite (bind_returned _ _ _ _ Hstep), output_after, elem_of_app.
  destruct (decide (n = m)) as [<- | Hne].
  - left. rewrite deletion_step_absent by done. cbn [output].
    apply list_elem_of_further, list_elem_of_here.
  - right. apply IH. by apply elem_of_cons in Hin as [? | ?].
Qed.

Lemma deletion_loop_absent (cp : list Property) (size index : nat)
    (failed targets : list value) (w : World) :
  Forall (fun n => in_snapshot cp n = false) targets ->
  outcome (deletion_loop cp size index failed targets w) = Returned failed /\
  world (deletion_loop cp size index failed targets w) = w /\
  requests (output (deletion_loop cp size index failed targets w)) = [] /\
  List.filter is_sleep (output (deletion_loop cp size index failed targets w)) = [].
Proof.
  intros Hall. revert index.
  induction Hall as [| n targets Hn _ IH]; intros index; [done |].
  cbn [deletion_loop].
  rewrite (bind_returned _ _ _ failed) by (by rewrite deletion_step_absent).
  rewrite outcome_after, world_after, output_after, requests_app, List.filter_app.
  rewrite deletion_step_absent by done. cbn [world output].
  destruct (IH (S index)) as (-> & -> & -> & ->). done.
Qed.

(** *** The loop of the Grouping Deleter *)

Lemma group_deletion_loop_run (size index : nat) (gs : list value) (w : World) :
  outcome (group_deletion_loop size index gs w) = Returned tt /\
  requests (output (group_deletion_loop size index gs w)) = group_delete_request <$> gs /\
  List.filter is_sleep (output (group_deletion_loop size index gs w)) = [].
Proof.
  revert index w. induction gs as [| g gs IH]; intros index w; [by cbn |].
  cbn [group_deletion_loop]. unfold group_deletion_step.
  rewrite bind_assoc, bind_console_log.
  rewrite (bind_returned _ _ _ tt) by (by rewrite deleteGroup_run).
  rewrite !outcome_after, !output_after, !requests_app, !List.filter_app.
  rewrite deleteGroup_run. cbn [world output].
  destruct (IH (S index) (remote w (group_delete_request g)).2) as (-> & -> & ->).
  by destruct (remote w (group_delete_request g)).1.
Qed.

Lemma deleteGroupsFromCSV_run (path : string) (rows : list row) (w : World) :
  read_csv path = inr rows ->
  outcome (deleteGroupsFromCSV path w) = Returned tt /\
  requests (output (deleteGroupsFromCSV path w)) =
    group_delete_request <$> foldl groups_on_data [] rows /\
  List.filter is_sleep (output (deleteGroupsFromCSV path w)) = [].
Proof.
  intros Hread. unfold deleteGroupsFromCSV, read_rows. rewrite Hread.
  rewrite bind_console_log, bind_ret, after_nil. cbv zeta. rewrite bind_console_log.
  set (gs := foldl groups_on_data [] rows).
  destruct (group_deletion_loop_run (length gs) 1 gs w) as (Hout & Hreqs & Hsleep).
  rewrite (bind_returned _ _ _ tt Hout).
  rewrite !outcome_after, !output_after, !requests_app, !List.filter_app.
  rewrite Hreqs, Hsleep. cbn. by rewrite app_nil_r.
Qed.

(** *** JavaScript sets *)

Lemma first_occurrences_elem (l : list value) (v : value) :
  v ∈ first_occurrences l <-> v ∈ l.
Proof.
  induction l as [| x l IH]; simpl; [done |].
  rewrite !elem_of_cons, list_elem_of_In, List.filter_In, <- list_elem_of_In, IH.
  destruct (decide (v = x)) as [-> | Hne]; [tauto |].
  rewrite negb_true_iff, bool_decide_eq_false. tauto.
Qed.

Lemma first_occurrences_NoDup (l : list value) : NoDup (first_occurrences l).
Proof.
  induction l as [| x l IH]; simpl; [constructor |].
  constructor.
  - rewrite list_elem_of_In, List.filter_In, negb_true_iff, bool_decide_eq_false. tauto.
  - apply NoDup_ListNoDup, List.NoDup_filter, NoDup_ListNoDup, IH.
Qed.

Lemma filter_filter_ext {A} (f g h : A -> bool) (l : list A) :
  (forall x, h x = f x && g x) ->
  List.filter f (List.filter g l) = List.filter h l.
Proof.
  intros Hh. induction l as [| x l IH]; simpl; [done |].
  rewrite Hh. destruct (g x); simpl; [| by rewrite andb_false_r].
  rewrite andb_true_r. destruct (f x); by rewrite IH.
Qed.

Lemma foldl_Set_add (acc l : list value) :
  foldl Set_add acc l =
    acc ++ List.filter (fun x => negb (bool_decide (x ∈ acc))) (first_occurrences l).
Proof.
  revert acc. induction l as [| v l IH]; intros acc; simpl.
  - by rewrite app_nil_r.
  - rewrite IH. unfold Set_add. destruct (decide (v ∈ acc)) as [Hin | Hnotin].
    + rewrite (bool_decide_eq_true_2 _ Hin). simpl. f_equal.
      symmetry. apply filter_filter_ext. intros x.
      destruct (decide (x = v)) as [-> | Hne].
      * by rewrite (bool_decide_eq_true_2 _ Hin).
      * by rewrite (bool_decide_eq_false_2 _ Hne), andb_true_r.
    + rewrite (bool_decide_eq_false_2 _ Hnotin). simpl. rewrite <- app_assoc. simpl.
      do 2 f_equal. symmetry. apply filter_filter_ext. intros x.
      rewrite <- negb_orb. f_equal. apply eq_true_iff_eq.
      rewrite orb_true_iff, !bool_decide_eq_true, elem_of_app, list_elem_of_singleton.
      tauto.
Qed.

Lemma Set_of_list (l : list value) : foldl Set_add [] l = first_occurrences l.
Proof.
  rewrite foldl_Set_add. simpl. induction (first_occurrences l) as [| x l' IH]; [done |].
  simpl. by rewrite IH.
Qed.

Lemma delete_rows (acc : list value) (rows : list row) :
  foldl delete_on_data acc rows =
    foldl Set_add acc
      ((fun r : row => r !! "Internal name") <$> List.filter not_built_in rows).
Proof.
  revert acc. induction rows as [| r rows IH]; intros acc; simpl; [done |].
  rewrite IH. unfold delete_on_data, not_built_in.
  by destruct (negb (is_true (r !! "Hubspot defined"))).
Qed.

Lemma groups_rows (acc : list value) (rows : list row) :
  foldl groups_on_data acc rows =
    foldl Set_add acc ((fun r : row => r !! "Group name") <$> rows).
Proof.
  revert acc. induction rows as [| r rows IH]; intros acc; simpl; [done |].
  by rewrite IH.
Qed.

(** Two names are addressed by the same URL only when they are printed
    alike. *)
Lemma named_url_inj (m n : value) : named_url m = named_url n -> to_string m = to_string n.
Proof.
  unfold named_url. intros H.
  by apply (String.app_inj "/named/"), (String.app_inj BASE_URL).
Qed.

Lemma made_for_delete (m n : value) :
  made_for m (delete_request n) -> to_string m = to_string n.
Proof.
  intros [H | H].
  - apply (f_equal method) in H. discriminate H.
  - apply (f_equal url) in H. symmetry. by apply named_url_inj.
Qed.

Lemma made_for_details (m n : value) :
  made_for m (details_request n) -> to_string m = to_string n.
Proof.
  intros [H | H].
  - apply (f_equal url) in H. symmetry. by apply named_url_inj.
  - apply (f_equal method) in H. discriminate H.
Qed.

Lemma targets_NoDup (rows : list row) : NoDup (foldl delete_on_data [] rows).
Proof. rewrite delete_rows, Set_of_list. apply first_occurrences_NoDup. Qed.

End Running.

(** ** The Reconciler *)

Section Reconciler.
Context {P : Platform}.

(** C2.  [createOrUpdateProperty] looks the name up and then, unless the
    options cannot be deserialized, sends one request: a PUT to the URL of
    the name when the lookup answered with an object or an array, and a
    POST to the collection URL when the lookup failed, for whatever reason,
    or answered with [null] or an empty body.  In both cases the data are
    the same: the fields of [prop], [formField] set to whether [fieldType]
    is ['text'], and the options as [JSON.parse] gives them, or none when
    there are no options or they are the empty string.  When [JSON.parse]
    rejects the options nothing follows the lookup: neither path is
    taken. *)
Theorem createOrUpdateProperty_selects_path (prop : Property) (w : World) :
  let lookup :=
    {| method := GET;
       url := BASE_URL +:+ "/named/" +:+ to_string (name prop);
       data := NoData;
       headers := [("Authorization", "Bearer " +:+ to_string API_KEY)] |} in
  let update :=
    match (remote w lookup).1 with
    | inr (BObject _) | inr (BArray _) => true
    | inr BNull | inr BEmpty | inl _ => false
    end in
  let write (opts : option json) :=
    {| method := if update then PUT else POST;
       url := if update
              then BASE_URL +:+ "/named/" +:+ to_string (name prop)
              else BASE_URL;
       data := DefinitionData
                 {| data_name := name prop;
                    data_label := label prop;
                    data_description := description prop;
                    data_groupName := groupName prop;
                    data_type := type prop;
                    data_fieldType := fieldType prop;
                    data_formField := bool_decide (fieldType prop = "text");
                    data_options := opts |};
       headers := [("Content-Type", "application/json");
                   ("Authorization", "Bearer " +:+ to_string API_KEY)] |} in
  requests (output (createOrUpdateProperty prop w)) =
    lookup ::
    match options prop with
    | None => [write None]
    | Some cell =>
        if String.eqb cell EmptyString then [write None]
        else match JSON_parse cell with
             | inr j => [write (Some j)]
             | inl _ => []
             end
    end.
Proof.
  intros lookup update write.
  pose proof (createOrUpdateProperty_run prop w) as Hrun. cbv zeta in Hrun.
  change (details_request (name prop)) with lookup in Hrun.
  assert (found (lookup_result (remote w lookup).1) = update) as Hfound.
  { unfold update. by destruct (remote w lookup).1 as [e | [l | p | |]]. }
  rewrite Hfound in Hrun.
  assert (forall opts, definition_request update prop opts = write opts) as Hwrite
    by reflexivity.
  unfold options_value, truthy in Hrun.
  destruct (options prop) as [cell |].
  - change (to_string (Some cell)) with cell in Hrun.
    destruct (String.eqb cell EmptyString); cbn [negb] in Hrun.
    + destruct Hrun as (_ & _ & ->). by rewrite Hwrite.
    + destruct (JSON_parse cell) as [msg | j]; cbv beta iota in Hrun.
      * by rewrite Hrun.
      * destruct Hrun as (_ & _ & ->). by rewrite Hwrite.
  - destruct Hrun as (_ & _ & ->). by rewrite Hwrite.
Qed.


(** C1, as the code has it.  When the file can be read, the requests of
    [importProperties] are those of a reconciliation of the rows whose
    'Hubspot defined' cell is not "true", in input order: for each such row
    the grouping check, then the lookup, then one create or update request
    unless the options of the row cannot be deserialized.  The create and
    update requests of the run are therefore exactly one for each such row
    with usable options, in input order; and a file of built-in rows only
    causes no request. *)
Theorem importProperties_reconciles (path : string) (rows : list row) (w : World) :
  read_csv path = inr rows ->
  let props := property_of_row <$> List.filter not_built_in rows in
  reconciled props (requests (output (importProperties path w))) /\
  Forall2 written_for (List.filter transmissible props)
    (writes (output (importProperties path w))) /\
  (Forall (fun r => r !! "Hubspot defined" = Some "true") rows ->
   requests (output (importProperties path w)) = []).
Proof.
  intros Hread props.
  destruct (importProperties_run path rows w Hread) as [_ Hrec]. fold props in Hrec.
  split; [done |]. split; [by apply reconciled_writes |].
  intros Hall. apply reconciled_nil_inv.
  replace props with (@nil Property) in Hrec; [done |].
  subst props. clear Hrec Hread. induction rows as [| r rows IH]; [done |].
  inversion Hall as [| ? ? Hr Hrows]; subst. simpl.
  unfold not_built_in at 1, is_true. rewrite Hr. by apply IH.
Qed.

(** C6, as the code has it.  A row whose options cannot be deserialized
    fails alone: its grouping check is made as for any row, and
    [createOrUpdateProperty] returns [false] for it without throwing, having
    sent the lookup and logged the error but no create or update request;
    and [importProperties] returns normally, having reconciled the rows
    before it and the rows after it, whatever the server answered. *)
Theorem malformed_options_fail_one_row (path : string) (pre post : list row) (r : row)
    (msg : string) (w : World) :
  read_csv path = inr (pre ++ r :: post) ->
  not_built_in r = true ->
  options_value (r !! "Options") = inl msg ->
  (forall w' : World,
     createOrUpdateProperty (property_of_row r) w' =
       {| outcome := Returned false;
          world := (remote w' (details_request (r !! "Internal name"))).2;
          output :=
            [Http (details_request (r !! "Internal name"))
               (remote w' (details_request (r !! "Internal name"))).1;
             ConsoleError
               [Text ("Error processing property " +:+ to_string (r !! "Internal name")
                        +:+ ":");
                Text msg]] |}) /\
  outcome (importProperties path w) = Returned tt /\
  exists before checks later : list Request,
    requests (output (importProperties path w)) =
      before ++ checks ++ [details_request (r !! "Internal name")] ++ later /\
    reconciled (property_of_row <$> List.filter not_built_in pre) before /\
    grouping_checked (r !! "Group name") checks /\
    reconciled (property_of_row <$> List.filter not_built_in post) later.
Proof.
  intros Hread Hr Hopts. split.
  { intros w'. pose proof (createOrUpdateProperty_run (property_of_row r) w') as Hrun.
    cbv zeta in Hrun. cbn [options property_of_row] in Hrun. by rewrite Hopts in Hrun. }
  destruct (importProperties_run path _ w Hread) as [Hout Hrec]. split; [done |].
  rewrite List.filter_app in Hrec. cbn [List.filter] in Hrec. rewrite Hr in Hrec.
  rewrite fmap_app, fmap_cons in Hrec.
  destruct (reconciled_app_inv _ _ _ Hrec) as (before & rest & Hreqs & Hbefore & Hrest).
  inversion Hrest as [| ? ? checks written later Hc Hw Hlater]; subst.
  unfold looked_up_and_written in Hw. cbn [options name property_of_row] in Hw.
  rewrite Hopts in Hw. subst written.
  exists before, checks, later. by rewrite Hreqs.
Qed.

End Reconciler.

(** ** The Batch Deleter *)

Section BatchDeleter.
Context {P : Platform}.

(** C4.  Let [n] be a target that is in the snapshot, and let its detail
    fetch fail or return an entity whose [readOnly] is true.  Then the run
    reports [n] among the failed deletions, and the only request made for
    [n] is that detail fetch: the requests before it are made for the
    targets before [n], the requests after it for the targets after [n],
    and [n] is not among either.  So no delete request addressed to [n] is
    in the run, as long as no other target is printed like [n] (a row
    without an 'Internal name' cell is printed "undefined"). *)
Theorem protected_entries_are_never_deleted (path : string) (rows : list row)
    (pre post : list value) (n : value) (w : World) :
  read_csv path = inr rows ->
  foldl delete_on_data [] rows = pre ++ n :: post ->
  let cp := snapshot_of (remote w properties_list_request).1 in
  let earlier := deletion_loop cp (length (pre ++ n :: post)) 1 [] pre
                   (remote w properties_list_request).2 in
  in_snapshot cp n = true ->
  protected (remote (world earlier) (details_request n)).1 = true ->
  exists (failedDeletions : list value) (later : list Request),
    outcome (deletePropertiesFromCSV path w) = Returned failedDeletions /\
    (n ∈ failedDeletions) /\
    ConsoleError [Text "Failed to delete the following properties:";
                  Names failedDeletions]
      ∈ output (deletePropertiesFromCSV path w) /\
    requests (output (deletePropertiesFromCSV path w)) =
      properties_list_request ::
        requests (output earlier) ++ [details_request n] ++ later /\
    Forall (fun req => exists m, m ∈ pre /\ made_for m req) (requests (output earlier)) /\
    Forall (fun req => exists m, m ∈ post /\ made_for m req) later /\
    (n ∉ pre) /\ (n ∉ post) /\
    ((forall m, m ∈ pre ++ post -> to_string m <> to_string n) ->
     delete_request n ∉ requests (output (deletePropertiesFromCSV path w))).
Proof.
  intros Hread Htargets cp earlier Hn Hprotected.
  set (size := length (pre ++ n :: post)) in *.
  set (w1 := (remote w properties_list_request).2) in *.
  destruct (deletion_loop_spec cp size 1 [] pre w1) as (f1 & Hearlier & _ & Hreqs1).
  fold earlier in Hearlier, Hreqs1. cbn [app] in Hearlier.
  set (fetch := remote (world earlier) (details_request n)) in *.
  destruct (deletion_loop_spec cp size (S (length pre + 1)) (f1 ++ [n]) post fetch.2)
    as (f2 & Hlater & _ & Hreqs2).
  set (rest := deletion_loop cp size (S (length pre + 1)) (f1 ++ [n]) post fetch.2) in *.
  assert (deletion_loop cp size 1 [] (pre ++ n :: post) w1 =
            after (output earlier)
              (after [processing_log size (length pre + 1) n;
                      Http (details_request n) fetch.1;
                      skipping_log n; Sleep 1000] rest)) as Hloop.
  { rewrite deletion_loop_app. fold earlier.
    rewrite (bind_returned _ _ _ _ Hearlier). f_equal.
    cbn [deletion_loop].
    rewrite (bind_returned _ _ _ (f1 ++ [n]))
      by (by rewrite deletion_step_protected).
    by rewrite deletion_step_protected. }
  exists ((f1 ++ [n]) ++ f2), (requests (output rest)).
  destruct (deletePropertiesFromCSV_run path rows w ((f1 ++ [n]) ++ f2) Hread)
    as (Hout & _ & Hreqs & _ & _ & Hreport).
  { rewrite Htargets. fold size w1 cp. by rewrite Hloop, !outcome_after. }
  rewrite Htargets in Hreqs. fold size w1 cp in Hreqs.
  rewrite Hloop, !output_after, !requests_app in Hreqs.
  pose proof (targets_NoDup rows) as Hnodup. rewrite Htargets in Hnodup.
  apply NoDup_app in Hnodup as (_ & Hpre & Hpost%NoDup_cons).
  split; [done |].
  split; [rewrite !elem_of_app, list_elem_of_singleton; auto |].
  split; [apply Hreport; by destruct f1 |]. split; [done |].
  assert (Forall (fun req => exists m, m ∈ pre /\ made_for m req)
            (requests (output earlier))) as Hfor1.
  { eapply Forall_impl; [exact Hreqs1 |]. intros req (m & ? & ? & ?). eauto. }
  assert (Forall (fun req => exists m, m ∈ post /\ made_for m req)
            (requests (output rest))) as Hfor2.
  { eapply Forall_impl; [exact Hreqs2 |]. intros req (m & ? & ? & ?). eauto. }
  split; [done |]. split; [done |].
  split; [intros Hin; apply (Hpre n Hin); by left |]. split; [tauto |].
  intros Hdistinct.
  assert (requests (output (deletePropertiesFromCSV path w)) =
            properties_list_request ::
              requests (output earlier) ++ [details_request n] ++ requests (output rest))
    as -> by exact Hreqs.
  rewrite elem_of_cons, !elem_of_app, list_elem_of_singleton.
  rewrite Forall_forall in Hfor1. rewrite Forall_forall in Hfor2.
  intros [Heq | [Hin | [Heq | Hin]]].
  - apply (f_equal method) in Heq. discriminate Heq.
  - destruct (Hfor1 _ Hin) as (m & Hm & Hmade).
    apply (Hdistinct m); [apply elem_of_app; by left | by apply made_for_delete].
  - apply (f_equal method) in Heq. discriminate Heq.
  - destruct (Hfor2 _ Hin) as (m & Hm & Hmade).
    apply (Hdistinct m); [apply elem_of_app; by right | by apply made_for_delete].
Qed.

(** C5.  A target that is not in the snapshot is skipped: its step logs
    that the name was not found and does nothing else, so the world and the
    failures are as before.  In the run, the message is printed, the name is
    not among the failed deletions, and every request after the one
    snapshot fetch is made for a target that is in the snapshot.  So no
    detail fetch and no delete request addressed to the name is in the run,
    as long as no target of the snapshot is printed like it (a row without
    an 'Internal name' cell is printed "undefined"). *)
Theorem absent_targets_are_skipped (path : string) (rows : list row) (n : value)
    (w : World) :
  read_csv path = inr rows ->
  let cp := snapshot_of (remote w properties_list_request).1 in
  let targets := foldl delete_on_data [] rows in
  n ∈ targets ->
  in_snapshot cp n = false ->
  (forall (size index : nat) (failed : list value) (w' : World),
     deletion_step cp size index failed n w' =
       {| outcome := Returned failed; world := w';
          output :=
            [ConsoleLog [Text ("Processing deletion " +:+ pretty index +:+ " of "
                                 +:+ pretty size +:+ ": " +:+ to_string n)];
             ConsoleLog [Text ("Property not found in custom properties: "
                                 +:+ to_string n)]] |}) /\
  exists (failedDeletions : list value) (later : list Request),
    outcome (deletePropertiesFromCSV path w) = Returned failedDeletions /\
    (n ∉ failedDeletions) /\
    ConsoleLog [Text ("Property not found in custom properties: " +:+ to_string n)]
      ∈ output (deletePropertiesFromCSV path w) /\
    requests (output (deletePropertiesFromCSV path w)) =
      properties_list_request :: later /\
    Forall (fun req => exists m,
              m ∈ targets /\ in_snapshot cp m = true /\ made_for m req) later /\
    ((forall m, m ∈ targets -> in_snapshot cp m = true -> to_string m <> to_string n) ->
     (details_request n ∉ later) /\ (delete_request n ∉ later)).
Proof.
  intros Hread cp targets Hin Hn. split.
  { intros. by apply deletion_step_absent. }
  set (w1 := (remote w properties_list_request).2).
  destruct (deletion_loop_spec cp (length targets) 1 [] targets w1)
    as (failed & Hloop & Hfailed & Hreqs).
  cbn [app] in Hloop.
  destruct (deletePropertiesFromCSV_run path rows w failed Hread Hloop)
    as (Hout & _ & Hrun & _ & Hevs & _).
  exists failed, (requests (output (deletion_loop cp (length targets) 1 [] targets w1))).
  split; [done |]. split.
  { intros Hbad. rewrite Forall_forall in Hfailed.
    destruct (Hfailed n Hbad) as [_ Hyes]. congruence. }
  split; [apply Hevs; by apply deletion_loop_logs_absent |].
  split; [done |]. split; [done |].
  intros Hdistinct. rewrite Forall_forall in Hreqs.
  split; intros Hreq; destruct (Hreqs _ Hreq) as (m & Hm & Hsnap & Hmade);
    apply (Hdistinct m Hm Hsnap).
  - by apply made_for_details.
  - by apply made_for_delete.
Qed.

(** C10.  When the snapshot fetch fails, [getAllCustomProperties] returns
    the empty list instead of throwing.  The run then sends no request but
    that fetch, pauses nowhere, prints for every target that it was not
    found, and returns normally with no failed deletion. *)
Theorem failed_snapshot_deletes_nothing (path : string) (rows : list row)
    (e : AxiosError) (w : World) :
  read_csv path = inr rows ->
  (remote w properties_list_request).1 = inl e ->
  outcome (getAllCustomProperties w) = Returned [] /\
  outcome (deletePropertiesFromCSV path w) = Returned [] /\
  world (deletePropertiesFromCSV path w) = (remote w properties_list_request).2 /\
  requests (output (deletePropertiesFromCSV path w)) = [properties_list_request] /\
  List.filter is_sleep (output (deletePropertiesFromCSV path w)) = [] /\
  Forall (fun n =>
            ConsoleLog [Text ("Property not found in custom properties: "
                                +:+ to_string n)]
              ∈ output (deletePropertiesFromCSV path w))
    (foldl delete_on_data [] rows).
Proof.
  intros Hread Hfetch.
  destruct (getAllCustomProperties_run w) as (Hsnap & _). rewrite Hfetch in Hsnap.
  split; [done |].
  set (targets := foldl delete_on_data [] rows).
  set (w1 := (remote w properties_list_request).2).
  destruct (deletion_loop_absent [] (length targets) 1 [] targets w1)
    as (Hloop & Hworld & Hreqs & Hsleep).
  { by apply Forall_forall. }
  pose proof (deletePropertiesFromCSV_run path rows w [] Hread) as Hrun.
  cbv zeta in Hrun. rewrite Hfetch in Hrun. cbn [snapshot_of] in Hrun.
  fold targets w1 in Hrun.
  destruct (Hrun Hloop) as (Hout & Hw & Hrun_reqs & Hrun_sleep & Hevs & _).
  rewrite Hout, Hw, Hrun_reqs, Hrun_sleep, Hworld, Hreqs, Hsleep.
  repeat split; try done.
  apply Forall_forall. intros n Hn. apply Hevs.
  by apply deletion_loop_logs_absent.
Qed.

End BatchDeleter.

(** ** The Grouping Deleter *)

Section GroupingDeleter.
Context {P : Platform}.

(** C8.  When the file can be read, [deleteGroupsFromCSV] returns normally
    and its requests are exactly one DELETE of [GROUPS_URL/<name>] for each
    distinct 'Group name' cell of the input, built-in rows included, in the
    order of first occurrence, whatever the server answers: no listing or
    detail request is made and nothing is paused.  A deletion that fails
    is logged and [deleteGroup] returns normally. *)
Theorem deleteGroupsFromCSV_deletes_each_group_once (path : string) (rows : list row)
    (w : World) :
  read_csv path = inr rows ->
  let cells := (fun r : row => r !! "Group name") <$> rows in
  outcome (deleteGroupsFromCSV path w) = Returned tt /\
  requests (output (deleteGroupsFromCSV path w)) =
    (fun g => {| method := DELETE;
                 url := GROUPS_URL +:+ "/" +:+ to_string g;
                 data := NoData;
                 headers := auth_headers |}) <$> first_occurrences cells /\
  NoDup (first_occurrences cells) /\
  (forall g, g ∈ first_occurrences cells <-> g ∈ cells) /\
  List.filter is_sleep (output (deleteGroupsFromCSV path w)) = [] /\
  (forall (g : value) (e : AxiosError) (w' : World),
     (remote w' (group_delete_request g)).1 = inl e ->
     deleteGroup g w' =
       {| outcome := Returned tt;
          world := (remote w' (group_delete_request g)).2;
          output :=
            [Http (group_delete_request g) (inl e);
             ConsoleError [Text ("Error deleting group " +:+ to_string g +:+ ":");
                           Text (message e)]] |}).
Proof.
  intros Hread cells.
  destruct (deleteGroupsFromCSV_run path rows w Hread) as (Hout & Hreqs & Hsleep).
  rewrite groups_rows, Set_of_list in Hreqs. fold cells in Hreqs.
  split; [done |]. split; [done |].
  split; [apply first_occurrences_NoDup |].
  split; [apply first_occurrences_elem |]. split; [done |].
  intros g e w' Hres. rewrite deleteGroup_run. cbv zeta. by rewrite Hres.
Qed.

End GroupingDeleter.

(** ** The Driver *)

Section Driver.
Context {P : Platform}.

Lemma deletePropertiesFromCSV_returns (path : string) (rows : list row) (w : World) :
  read_csv path = inr rows ->
  exists failed, outcome (deletePropertiesFromCSV path w) = Returned failed.
Proof.
  intros Hread.
  destruct (deletion_loop_spec (snapshot_of (remote w properties_list_request).1)
              (length (foldl delete_on_data [] rows)) 1 []
              (foldl delete_on_data [] rows) (remote w properties_list_request).2)
    as (failed & Hloop & _).
  exists ([] ++ failed).
  by destruct (deletePropertiesFromCSV_run path rows w _ Hread Hloop) as [? _].
Qed.

Lemma run_to_exit_returned {A} (workflow : M A) (w : World) (a : A) :
  outcome (workflow w) = Returned a -> status (run_to_exit workflow w) = 0%Z.
Proof. unfold run_to_exit. destruct (workflow w) as [[] ? ?]; by simpl. Qed.

(** C9.  If the credential is unset or empty, the path is missing or
    empty, or the command is none of the three, the process ends with
    status 1 having made no request.  If instead the configuration is valid and the file can be
    read, the dispatched workflow runs to its end and the process ends with
    status 0, whatever the server answered to the requests. *)
Theorem main_exit_status (argv : list string) (w : World) :
  let command := drop 2 argv !! 0%nat in
  let filePath := drop 2 argv !! 1%nat in
  (truthy API_KEY = false \/ truthy filePath = false \/
   (command <> Some "import" /\ command <> Some "delete-properties" /\
    command <> Some "delete-groups") ->
   status (main argv w) = 1%Z /\
   requests (trace (main argv w)) = [] /\
   end_world (main argv w) = w) /\
  (truthy API_KEY = true ->
   truthy filePath = true ->
   command = Some "import" \/ command = Some "delete-properties" \/
     command = Some "delete-groups" ->
   (exists rows, read_csv (to_string filePath) = inr rows) ->
   status (main argv w) = 0%Z).
Proof.
  intros command filePath. unfold main. fold command filePath. split.
  - intros Hbad. destruct (truthy API_KEY) eqn:Hkey; [| done]. simpl.
    destruct Hbad as [Hfalse | [Hfalse | (H1 & H2 & H3)]].
    + done.
    + by rewrite Hfalse.
    + destruct (truthy filePath); [| done]. simpl.
      by rewrite !bool_decide_eq_false_2.
  - intros -> -> Hcommand [rows Hread]. simpl.
    destruct Hcommand as [-> | [-> | ->]].
    + rewrite bool_decide_eq_true_2 by done.
      destruct (importProperties_run _ rows w Hread) as [Hout _].
      by apply (run_to_exit_returned _ _ tt).
    + rewrite bool_decide_eq_false_2 by done. rewrite bool_decide_eq_true_2 by done.
      destruct (deletePropertiesFromCSV_returns _ rows w Hread) as [failed Hout].
      by apply (run_to_exit_returned _ _ failed).
    + rewrite !bool_decide_eq_false_2 by done. rewrite bool_decide_eq_true_2 by done.
      destruct (deleteGroupsFromCSV_run _ rows w Hread) as [Hout _].
      by apply (run_to_exit_returned _ _ tt).
Qed.

End Driver.

(** ** Two runs against the reference store *)

Section ReferenceStore.
Context (api_key : value) (parse : string -> string + json)
  (stringify : Body -> string) (files : string -> string + list row).

#[local] Instance store_process : Platform :=
  reference_platform api_key parse stringify files.

Lemma strip_prefix_app (p s : string) : strip_prefix p (p +:+ s) = Some s.
Proof.
  induction p as [| a p IH]; simpl; [done |]. by rewrite Ascii.eqb_refl.
Qed.

Lemma string_app_assoc (a b c : string) : (a +:+ b) +:+ c = a +:+ b +:+ c.
Proof.
  induction a as [| x a IH]; [done |].
  change (String x ((a +:+ b) +:+ c) = String x (a +:+ b +:+ c)). by f_equal.
Qed.

Lemma find_has_key (k : string) (defs : list Property) :
  is_Some (List.find (has_key k) defs) <-> k ∈ key <$> defs.
Proof.
  induction defs as [| p defs IH]; simpl.
  - rewrite elem_of_nil. split; [by intros [? ?] | done].
  - rewrite elem_of_cons. unfold has_key at 1.
    destruct (String.eqb_spec (key p) k) as [-> | Hne].
    + split; [auto | by eexists].
    + rewrite IH. split; [auto | by intros [-> | ?]].
Qed.

(** A plain name reaches the server as it is written. *)
Lemma plain_char_sent (c : Ascii.ascii) :
  plain_char c = true ->
  existsb (Ascii.eqb c) (String.list_ascii_of_string "#?") = false.
Proof.
  intros Hc. destruct (existsb _ _) eqn:Hsent; [| done].
  apply List.existsb_exists in Hsent as (d & Hd & <-%Ascii.eqb_eq).
  cbn in Hd. destruct Hd as [<- | [<- | []]]; vm_compute in Hc; discriminate.
Qed.

Lemma transmitted_plain (k : string) :
  plain_name k = true -> transmitted k = k.
Proof.
  intros [_ Hk]%andb_true_iff. induction k as [| c k IH]; [done |].
  cbn [String.list_ascii_of_string forallb] in Hk.
  apply andb_true_iff in Hk as [Hc Hk].
  cbn [transmitted]. rewrite (plain_char_sent c Hc). by rewrite IH.
Qed.

Lemma transmitted_named (n : value) :
  plain_name (to_string n) = true -> transmitted (named_url n) = named_url n.
Proof.
  intros Hn.
  change (transmitted (named_url n))
    with (BASE_URL +:+ "/named/" +:+ transmitted (to_string n)).
  by rewrite transmitted_plain.
Qed.

Lemma store_groups_list (s : Store) :
  store_remote s groups_list_request =
    (inr (BArray (Some <$> (named_object <$> groups s))), s).
Proof. reflexivity. Qed.

Lemma store_group_create (s : Store) (g : value) :
  store_remote s (group_create_request g) =
    (inr (BObject (named_object g)),
     {| groups := groups s ++ [g]; definitions := definitions s |}).
Proof. reflexivity. Qed.

Lemma store_details (s : Store) (n : value) :
  plain_name (to_string n) = true ->
  store_remote s (details_request n) =
    (match List.find (has_key (to_string n)) (definitions s) with
     | Some p => inr (BObject p)
     | None => inl not_found
     end, s).
Proof.
  intros Hn. unfold store_remote, details_request. cbn [method url]. cbv zeta.
  rewrite (transmitted_named n Hn). unfold store_get, named_url.
  rewrite <- string_app_assoc, strip_prefix_app.
  by destruct (List.find _ _).
Qed.

Lemma store_create (s : Store) (prop : Property) (opts : option json) :
  store_remote s (definition_request false prop opts) =
    (inr (BObject (entity_of_data (definition_data prop opts))),
     {| groups := groups s;
        definitions := definitions s ++ [entity_of_data (definition_data prop opts)] |}).
Proof. reflexivity. Qed.

Lemma store_update (s : Store) (prop p : Property) (opts : option json) :
  plain_name (key prop) = true ->
  List.find (has_key (key prop)) (definitions s) = Some p ->
  store_remote s (definition_request true prop opts) =
    (inr (BObject (replace_with (key prop) (definition_data prop opts) p)),
     {| groups := groups s;
        definitions :=
          replace_with (key prop) (definition_data prop opts) <$> definitions s |}).
Proof.
  intros Hprop Hfind. unfold store_remote, definition_request.
  cbn [method url data]. cbv zeta.
  rewrite (transmitted_named (name prop) Hprop). unfold store_put, named_url.
  rewrite <- string_app_assoc, strip_prefix_app.
  fold (key prop). by rewrite Hfind.
Qed.

Lemma keys_replace (k : string) (pd : PropertyData) (defs : list Property) :
  key <$> (replace_with k pd <$> defs) = key <$> defs.
Proof.
  induction defs as [| p defs IH]; [done |]. rewrite !fmap_cons, IH. f_equal.
  unfold replace_with. by destruct (has_key k p).
Qed.

Lemma store_createGroupIfNotExists (g : value) (s : Store) :
  definitions (world (createGroupIfNotExists g s)) = definitions s.
Proof.
  unfold createGroupIfNotExists, data_some, of_result. run.
  cbn [remote store_process reference_platform].
  rewrite store_groups_list. reduce. rewrite array_some_objects.
  destruct (existsb _ _); reduce; [done |].
  by rewrite store_group_create.
Qed.

Lemma store_createOrUpdateProperty (prop : Property) (s : Store) :
  plain_name (key prop) = true ->
  match options_value (options prop) with
  | inr opts =>
      writes (output (createOrUpdateProperty prop s)) =
        [definition_request (bool_decide (key prop ∈ keys s)) prop opts] /\
      keys (world (createOrUpdateProperty prop s)) = add_key (keys s) (key prop)
  | inl _ =>
      writes (output (createOrUpdateProperty prop s)) = [] /\
      world (createOrUpdateProperty prop s) = s
  end.
Proof.
  intros Hprop.
  pose proof (createOrUpdateProperty_run (P := store_process) prop s) as Hrun. cbv zeta in Hrun.
  cbn [remote store_process reference_platform] in Hrun.
  rewrite (store_details s (name prop) Hprop) in Hrun. cbn [fst snd] in Hrun.
  destruct (options_value (options prop)) as [msg | opts].
  { by rewrite Hrun. }
  destruct Hrun as (_ & Hworld & Hreqs).
  unfold writes, add_key. rewrite Hreqs, Hworld. clear Hreqs Hworld.
  pose proof (find_has_key (key prop) (definitions s)) as Hkey.
  fold (key prop). fold (keys s) in Hkey.
  destruct (List.find (has_key (key prop)) (definitions s)) as [p |] eqn:Hfind.
  - assert (key prop ∈ keys s) as Hin by (apply Hkey; eauto).
    rewrite (bool_decide_eq_true_2 _ Hin). cbn [lookup_result found].
    split; [done |].
    rewrite (store_update s prop p opts Hprop Hfind). cbn [snd]. unfold keys. cbn [definitions].
    apply keys_replace.
  - assert (key prop ∉ keys s) as Hnotin by (intros Hin; apply Hkey in Hin as [? ?]; done).
    rewrite (bool_decide_eq_false_2 _ Hnotin). cbn [lookup_result found].
    split; [done |].
    rewrite store_create. cbn [snd]. unfold keys. cbn [definitions].
    by rewrite fmap_app.
Qed.

Lemma store_import_loop (total index : nat) (props : list Property) (s : Store) :
  Forall (fun prop => plain_name (key prop) = true) props ->
  writes (output (import_loop total index props s)) = expected_writes (keys s) props /\
  keys (world (import_loop total index props s)) = final_keys (keys s) props.
Proof.
  change Store with (@World store_process) in s.
  intros Hplain. revert index s.
  induction Hplain as [| prop props Hprop _ IH]; intros index s; [done |].
  cbn [import_loop expected_writes final_keys].
  destruct (import_step_run (P := store_process) total index prop s) as (Hstep & _).
  rewrite (bind_returned _ _ _ tt Hstep), world_after, output_after, writes_app.
  destruct (IH (S index) (world (import_step total index prop s))) as [-> ->].
  assert (writes (output (import_step total index prop s)) =
            writes (output (createOrUpdateProperty prop
                              (world (createGroupIfNotExists (groupName prop) s)))) /\
          world (import_step total index prop s) =
            world (createOrUpdateProperty prop
                     (world (createGroupIfNotExists (groupName prop) s)))) as [-> ->].
  { unfold import_step. rewrite bind_console_log.
    destruct (createGroupIfNotExists_run (P := store_process) (groupName prop) s) as (Hg & _ & Hwg).
    rewrite (bind_returned _ _ _ tt Hg).
    set (s1 := world (createGroupIfNotExists (groupName prop) s)).
    pose proof (createOrUpdateProperty_run (P := store_process) prop s1) as Hcu. cbv zeta in Hcu.
    assert (exists b, outcome (createOrUpdateProperty prop s1) = Returned b) as [b Hb].
    { destruct (options_value (options prop)).
      - rewrite Hcu. eauto.
      - destruct Hcu as [-> _]. eauto. }
    rewrite (bind_returned _ _ _ b Hb).
    rewrite !world_after, !output_after, !writes_app, Hwg. cbn.
    by rewrite app_nil_r. }
  set (s1 := world (createGroupIfNotExists (groupName prop) s)).
  assert (keys s1 = keys s) as Hkeys
    by (unfold keys, s1; by rewrite store_createGroupIfNotExists).
  pose proof (store_createOrUpdateProperty prop s1 Hprop) as Hcu.
  unfold transmissible.
  destruct (options_value (options prop)) as [msg | opts].
  - destruct Hcu as [-> ->]. by rewrite Hkeys.
  - destruct Hcu as [-> ->]. by rewrite Hkeys.
Qed.

Lemma add_key_elem (present : list string) (k x : string) :
  x ∈ add_key present k <-> x ∈ present \/ x = k.
Proof.
  unfold add_key. case_bool_decide as Hk.
  - split; [auto | by intros [? | ->]].
  - by rewrite elem_of_app, list_elem_of_singleton.
Qed.

Lemma add_key_NoDup (present : list string) (k : string) :
  NoDup present -> NoDup (add_key present k).
Proof.
  intros Hnodup. unfold add_key. case_bool_decide as Hk; [done |].
  apply NoDup_app. split; [done |]. split; [| apply NoDup_singleton].
  intros x Hx ->%list_elem_of_singleton. done.
Qed.

Lemma final_keys_NoDup (present : list string) (props : list Property) :
  NoDup present -> NoDup (final_keys present props).
Proof.
  revert present. induction props as [| prop props IH]; intros present Hnodup; [done |].
  simpl. destruct (transmissible prop); auto using add_key_NoDup.
Qed.

Lemma final_keys_covers (present : list string) (props : list Property) :
  (forall k, k ∈ present -> k ∈ final_keys present props) /\
  (forall prop, prop ∈ props -> transmissible prop = true ->
                key prop ∈ final_keys present props).
Proof.
  revert present. induction props as [| prop props IH]; intros present.
  - split; [done | by intros ? ?%elem_of_nil].
  - simpl. destruct (transmissible prop) eqn:Ht.
    + destruct (IH (add_key present (key prop))) as [IH1 IH2]. split.
      * intros k Hk. apply IH1, add_key_elem. auto.
      * intros q [-> | Hq]%elem_of_cons Hq'; [| by apply IH2].
        apply IH1, add_key_elem. auto.
    + destruct (IH present) as [IH1 IH2]. split; [done |].
      intros q [-> | Hq]%elem_of_cons Hq'; [congruence | by apply IH2].
Qed.

Lemma expected_writes_present (present : list string) (props : list Property) :
  (forall prop, prop ∈ props -> transmissible prop = true -> key prop ∈ present) ->
  expected_writes present props = updates props /\
  final_keys present props = present.
Proof.
  induction props as [| prop props IH]; intros Hall; [done |].
  simpl. unfold transmissible in *.
  assert (forall q, q ∈ props ->
            match options_value (options q) with inr _ => true | inl _ => false end = true ->
            key q ∈ present) as Hrest by (intros q Hq; apply Hall; by right).
  destruct (IH Hrest) as [IH1 IH2].
  pose proof (Hall prop (list_elem_of_here _ _)) as Hprop.
  destruct (options_value (options prop)) as [msg | opts]; [done |].
  specialize (Hprop eq_refl). unfold add_key.
  rewrite (bool_decide_eq_true_2 _ Hprop). by rewrite IH1, IH2.
Qed.

(** C3, as the code has it.  Run [importProperties] twice on the same file
    against the reference store, starting from any store that holds no
    key twice, the names of the rows that are not built in being plain, so
    that the URL of a name reaches the server as it is written.
    In the first run each definition whose payload can be built
    is created if its key is not yet in the store and updated otherwise,
    so that rows sharing a key resolve to a create followed by updates.  In
    the second run every such definition is updated and none is created;
    the second run leaves the keys of the store as they are, and no key is
    ever held twice.  A row whose options cannot be deserialized gets neither
    a create nor an update in either run. *)
Theorem second_run_updates (path : string) (rows : list row) (s : Store) :
  files path = inr rows ->
  NoDup (keys s) ->
  Forall (fun r : row => r !! "Hubspot defined" = Some "true" \/
                         exists n, r !! "Internal name" = Some n /\ plain_name n = true) rows ->
  let props := property_of_row <$> List.filter not_built_in rows in
  let first := importProperties path s in
  let second := importProperties path (world first) in
  writes (output first) = expected_writes (keys s) props /\
  writes (output second) = updates props /\
  NoDup (keys (world first)) /\
  NoDup (keys (world second)) /\
  keys (world second) = keys (world first).
Proof.
  change Store with (@World store_process) in s.
  intros Hread Hnodup Hrows props first second.
  assert (Forall (fun prop => plain_name (key prop) = true) props) as Hplain.
  { apply Forall_forall. intros prop (r & -> & Hr)%list_elem_of_fmap.
    apply list_elem_of_In, List.filter_In in Hr as [Hr Hcustom].
    rewrite Forall_forall in Hrows.
    destruct (Hrows r (proj2 (list_elem_of_In _ _) Hr)) as [Hb | (n & Hn & Hplain)].
    2: { unfold key, property_of_row. cbn [name]. by rewrite Hn. }
    unfold not_built_in, is_true in Hcustom. rewrite Hb in Hcustom.
    by rewrite bool_decide_eq_true_2 in Hcustom. }
  destruct (importProperties_loop (P := store_process) path rows s Hread) as [Hw1 Hwr1].
  destruct (importProperties_loop (P := store_process) path rows (world first) Hread) as [Hw2 Hwr2].
  fold props first in Hw1, Hwr1. fold props second in Hw2, Hwr2.
  destruct (store_import_loop (length props) 0 props s Hplain) as [He1 Hk1].
  destruct (store_import_loop (length props) 0 props (world first) Hplain) as [He2 Hk2].
  rewrite <- Hw1 in Hk1. rewrite <- Hw2 in Hk2.
  destruct (expected_writes_present (keys (world first)) props) as [Hu Hf].
  { intros prop Hprop Ht. rewrite Hk1. by apply final_keys_covers. }
  rewrite Hwr1, Hwr2, He1, He2, Hk2, Hu, Hf.
  repeat split; try done; rewrite Hk1; by apply final_keys_NoDup.
Qed.

End ReferenceStore.

(** ** The theorems at concrete inputs *)

Lemma importProperties_reconciles_witness :
  @read_csv import_example "export.csv" = inr import_rows_example /\
  (reconciled (P := import_example)
     (property_of_row <$> List.filter not_built_in import_rows_example)
     (requests (output (importProperties (P := import_example) "export.csv" empty_store))) /\
   Forall2 (written_for (P := import_example))
     (List.filter (transmissible (P := import_example))
        (property_of_row <$> List.filter not_built_in import_rows_example))
     (writes (output (importProperties (P := import_example) "export.csv" empty_store))) /\
   (Forall (fun r : row => r !! "Hubspot defined" = Some "true") import_rows_example ->
    requests (output (importProperties (P := import_example) "export.csv" empty_store)) = [])).
Proof.
  split; [reflexivity |].
  exact (importProperties_reconciles (P := import_example) "export.csv"
           import_rows_example empty_store eq_refl).
Defined.

(** C1 as stated fails: a row that is not built in, but whose options
    cannot be deserialized, gets no create or update request. *)
Lemma broken_row_is_not_written :
  List.filter not_built_in [broken_row] = [broken_row] /\
  writes (output (importProperties (P := broken_example) "export.csv" empty_store)) = [].
Proof. split; reflexivity. Qed.

(** C2 as stated fails: the lookup of a name the store does not hold
    answers 404, and yet no create follows it when the options cannot be
    deserialized; the lookup is the only request. *)
Lemma absent_lookup_without_create :
  (@remote broken_example empty_store
     (details_request (P := broken_example) (name (property_of_row broken_row)))).1
    = inl not_found /\
  requests (output (createOrUpdateProperty (P := broken_example)
                      (property_of_row broken_row) empty_store)) =
    [ {| method := GET; url := BASE_URL +:+ "/named/rating"; data := NoData;
         headers := [("Authorization", "Bearer secret")] |} ].
Proof. split; reflexivity. Qed.

(** Without plain names C3 fails as well: the lookup of [a#b] reaches the
    server as a lookup of [a], which the store does not hold, so that the
    second run creates the definition again and the store holds its key
    twice. *)
Lemma fragment_name_is_created_twice :
  let P := store_platform [example_row "a#b" "leadinfo" "[]" "false"] in
  let first := importProperties (P := P) "export.csv" empty_store in
  let second := importProperties (P := P) "export.csv" (world first) in
  method <$> writes (output second) = [POST] /\
  keys (world second) = ["a#b"; "a#b"].
Proof. split; reflexivity. Qed.

Lemma second_run_updates_witness :
  example_files twice_rows_example "export.csv" = inr twice_rows_example /\
  NoDup (keys empty_store) /\
  Forall (fun r : row => r !! "Hubspot defined" = Some "true" \/
                         exists n, r !! "Internal name" = Some n /\ plain_name n = true)
    twice_rows_example /\
  (writes (output (importProperties (P := twice_example) "export.csv" empty_store)) =
     expected_writes (P := twice_example) (keys empty_store)
       (property_of_row <$> List.filter not_built_in twice_rows_example) /\
   writes (output (importProperties (P := twice_example) "export.csv"
                     (world (importProperties (P := twice_example) "export.csv"
                               empty_store)))) =
     updates (P := twice_example)
       (property_of_row <$> List.filter not_built_in twice_rows_example) /\
   NoDup (keys (world (importProperties (P := twice_example) "export.csv" empty_store))) /\
   NoDup (keys (world (importProperties (P := twice_example) "export.csv"
                         (world (importProperties (P := twice_example) "export.csv"
                                   empty_store))))) /\
   keys (world (importProperties (P := twice_example) "export.csv"
                  (world (importProperties (P := twice_example) "export.csv"
                            empty_store)))) =
     keys (world (importProperties (P := twice_example) "export.csv" empty_store))).
Proof.
  split; [reflexivity |]. split; [apply NoDup_nil_2 |].
  assert (Forall (fun r : row => r !! "Hubspot defined" = Some "true" \/
                                 exists n, r !! "Internal name" = Some n /\ plain_name n = true)
            twice_rows_example) as Hplain.
  { repeat (apply Forall_cons_2; [right; eexists; split; reflexivity |]).
    apply Forall_nil_2. }
  split; [exact Hplain |].
  exact (second_run_updates (Some "secret") example_parse example_stringify
           (example_files twice_rows_example) "export.csv" twice_rows_example
           empty_store eq_refl (NoDup_nil_2 (A := string)) Hplain).
Defined.

(** C3 as stated fails: for a row whose options cannot be deserialized the
    first run creates nothing, and the second run issues no update. *)
Lemma broken_row_is_never_updated :
  List.filter not_built_in [broken_row] = [broken_row] /\
  writes (output (importProperties (P := broken_example) "export.csv" empty_store)) = [] /\
  keys (world (importProperties (P := broken_example) "export.csv" empty_store)) = [] /\
  writes (output (importProperties (P := broken_example) "export.csv"
                    (world (importProperties (P := broken_example) "export.csv"
                              empty_store)))) = [].
Proof. repeat split; reflexivity. Qed.

Lemma malformed_options_fail_one_row_witness :
  @read_csv import_example "export.csv" = inr ([score_row] ++ broken_row :: [built_in_row]) /\
  not_built_in broken_row = true /\
  options_value (P := import_example) (broken_row !! "Options")
    = inl "Unexpected end of JSON input" /\
  ((forall w' : Store,
      createOrUpdateProperty (P := import_example) (property_of_row broken_row) w' =
        {| outcome := Returned false;
           world := (store_remote w'
                       (details_request (P := import_example)
                          (broken_row !! "Internal name"))).2;
           output :=
             [Http (details_request (P := import_example) (broken_row !! "Internal name"))
                (store_remote w'
                   (details_request (P := import_example)
                      (broken_row !! "Internal name"))).1;
              ConsoleError
                [Text ("Error processing property "
                         +:+ to_string (broken_row !! "Internal name") +:+ ":");
                 Text "Unexpected end of JSON input"]] |}) /\
   outcome (importProperties (P := import_example) "export.csv" empty_store) = Returned tt /\
   exists before checks later : list Request,
     requests (output (importProperties (P := import_example) "export.csv" empty_store)) =
       before ++ checks
         ++ [details_request (P := import_example) (broken_row !! "Internal name")]
         ++ later /\
     reconciled (P := import_example)
       (property_of_row <$> List.filter not_built_in [score_row]) before /\
     grouping_checked (P := import_example) (broken_row !! "Group name") checks /\
     reconciled (P := import_example)
       (property_of_row <$> List.filter not_built_in [built_in_row]) later).
Proof.
  split; [reflexivity |]. split; [reflexivity |]. split; [reflexivity |].
  exact (malformed_options_fail_one_row (P := import_example) "export.csv"
           [score_row] [built_in_row] broken_row "Unexpected end of JSON input"
           empty_store eq_refl eq_refl eq_refl).
Defined.

(** C6 as stated fails: requests are sent for a row whose options cannot be
    deserialized.  Its grouping is looked for and, being absent, created,
    and its name is looked up; only the create request is missing. *)
Lemma broken_row_still_sends_requests :
  calls (output (createOrUpdateProperty (P := broken_example)
                   (property_of_row broken_row) empty_store)) =
    [(GET, BASE_URL +:+ "/named/rating")] /\
  calls (output (importProperties (P := broken_example) "export.csv" empty_store)) =
    [(GET, GROUPS_URL); (POST, GROUPS_URL); (GET, BASE_URL +:+ "/named/rating")] /\
  groups (world (importProperties (P := broken_example) "export.csv" empty_store)) =
    [Some "leadinfo"].
Proof. repeat split; reflexivity. Qed.



Lemma protected_entries_are_never_deleted_witness :
  @read_csv deletion_example "export.csv" = inr deletion_rows_example /\
  foldl delete_on_data [] deletion_rows_example
    = [Some "a"; Some "b"] ++ Some "c" :: [] /\
  in_snapshot
    (snapshot_of (@remote deletion_example example_store
                    (properties_list_request (P := deletion_example))).1)
    (Some "c") = true /\
  protected
    (@remote deletion_example
       (world (deletion_loop (P := deletion_example)
                 (snapshot_of (@remote deletion_example example_store
                                 (properties_list_request (P := deletion_example))).1)
                 (length ([Some "a"; Some "b"] ++ Some "c" :: [])) 1 []
                 [Some "a"; Some "b"]
                 (@remote deletion_example example_store
                    (properties_list_request (P := deletion_example))).2))
       (details_request (P := deletion_example) (Some "c"))).1 = true /\
  (exists failedDeletions : list value,
     outcome (deletePropertiesFromCSV (P := deletion_example) "export.csv" example_store)
       = Returned failedDeletions /\
     (Some "c" ∈ failedDeletions)) /\
  (delete_request (P := deletion_example) (Some "c")
     ∉ requests (output (deletePropertiesFromCSV (P := deletion_example) "export.csv"
                           example_store))).
Proof.
  split; [reflexivity |]. split; [reflexivity |]. split; [reflexivity |].
  split; [reflexivity |].
  destruct (protected_entries_are_never_deleted (P := deletion_example) "export.csv"
              deletion_rows_example [Some "a"; Some "b"] [] (Some "c") example_store
              eq_refl eq_refl eq_refl eq_refl)
    as (failedDeletions & later & Hout & Hin & _ & _ & _ & _ & _ & _ & Hno).
  split; [by exists failedDeletions |].
  apply Hno. intros m Hm.
  apply list_elem_of_In in Hm. simpl in Hm.
  destruct Hm as [<- | [<- | []]]; discriminate.
Defined.

Lemma absent_targets_are_skipped_witness :
  @read_csv deletion_example "export.csv" = inr deletion_rows_example /\
  (Some "b" ∈ foldl delete_on_data [] deletion_rows_example) /\
  in_snapshot
    (snapshot_of (@remote deletion_example example_store
                    (properties_list_request (P := deletion_example))).1)
    (Some "b") = false /\
  exists (failedDeletions : list value) (later : list Request),
    outcome (deletePropertiesFromCSV (P := deletion_example) "export.csv" example_store)
      = Returned failedDeletions /\
    (Some "b" ∉ failedDeletions) /\
    ConsoleLog [Text ("Property not found in custom properties: "
                        +:+ to_string (Some "b"))]
      ∈ output (deletePropertiesFromCSV (P := deletion_example) "export.csv"
                  example_store) /\
    requests (output (deletePropertiesFromCSV (P := deletion_example) "export.csv"
                        example_store)) =
      properties_list_request (P := deletion_example) :: later /\
    (details_request (P := deletion_example) (Some "b") ∉ later) /\
    (delete_request (P := deletion_example) (Some "b") ∉ later).
Proof.
  split; [reflexivity |].
  assert (Some "b" ∈ foldl delete_on_data [] deletion_rows_example) as Hin
    by (vm_compute; apply list_elem_of_further, list_elem_of_here).
  split; [exact Hin |]. split; [reflexivity |].
  destruct (proj2 (absent_targets_are_skipped (P := deletion_example) "export.csv"
                     deletion_rows_example (Some "b") example_store eq_refl Hin eq_refl))
    as (failedDeletions & later & Hout & Hnot & Hlog & Hreqs & _ & Hno).
  exists failedDeletions, later.
  split; [exact Hout |]. split; [exact Hnot |]. split; [exact Hlog |].
  split; [exact Hreqs |].
  apply Hno. intros m Hm Hsnap. vm_compute in Hm.
  apply list_elem_of_In in Hm. simpl in Hm.
  destruct Hm as [<- | [<- | [<- | []]]]; discriminate.
Defined.

Lemma failed_snapshot_deletes_nothing_witness :
  @read_csv outage_example "export.csv" = inr deletion_rows_example /\
  (@remote outage_example tt (properties_list_request (P := outage_example))).1
    = inl service_unavailable /\
  outcome (getAllCustomProperties (P := outage_example) tt) = Returned [] /\
  outcome (deletePropertiesFromCSV (P := outage_example) "export.csv" tt) = Returned [] /\
  world (deletePropertiesFromCSV (P := outage_example) "export.csv" tt) =
    (@remote outage_example tt (properties_list_request (P := outage_example))).2 /\
  requests (output (deletePropertiesFromCSV (P := outage_example) "export.csv" tt)) =
    [properties_list_request (P := outage_example)] /\
  List.filter is_sleep
    (output (deletePropertiesFromCSV (P := outage_example) "export.csv" tt)) = [] /\
  Forall (fun n =>
            ConsoleLog [Text ("Property not found in custom properties: "
                                +:+ to_string n)]
              ∈ output (deletePropertiesFromCSV (P := outage_example) "export.csv" tt))
    (foldl delete_on_data [] deletion_rows_example).
Proof.
  split; [reflexivity |]. split; [reflexivity |].
  exact (failed_snapshot_deletes_nothing (P := outage_example) "export.csv"
           deletion_rows_example service_unavailable tt eq_refl eq_refl).
Defined.

Lemma deleteGroupsFromCSV_deletes_each_group_once_witness :
  @read_csv deletion_example "export.csv" = inr deletion_rows_example /\
  outcome (deleteGroupsFromCSV (P := deletion_example) "export.csv" example_store)
    = Returned tt /\
  requests (output (deleteGroupsFromCSV (P := deletion_example) "export.csv"
                      example_store)) =
    [group_delete_request (P := deletion_example) (Some "leadinfo");
     group_delete_request (P := deletion_example) (Some "contactinformation")].
Proof.
  split; [reflexivity |].
  pose proof (deleteGroupsFromCSV_deletes_each_group_once (P := deletion_example)
                "export.csv" deletion_rows_example example_store eq_refl)
    as (Hout & Hreqs & _).
  split; [exact Hout |]. exact Hreqs.
Defined.

Lemma main_exit_status_witness :
  (drop 2 (node_argv "export" "export.csv") !! 0%nat <> Some "import" /\
   drop 2 (node_argv "export" "export.csv") !! 0%nat <> Some "delete-properties" /\
   drop 2 (node_argv "export" "export.csv") !! 0%nat <> Some "delete-groups") /\
  (status (main (P := deletion_example) (node_argv "export" "export.csv") example_store)
     = 1%Z /\
   requests (trace (main (P := deletion_example) (node_argv "export" "export.csv")
                      example_store)) = [] /\
   end_world (main (P := deletion_example) (node_argv "export" "export.csv")
                example_store) = example_store) /\
  truthy (@API_KEY deletion_example) = true /\
  truthy (drop 2 (node_argv "delete-properties" "export.csv") !! 1%nat) = true /\
  drop 2 (node_argv "delete-properties" "export.csv") !! 0%nat
    = Some "delete-properties" /\
  @read_csv deletion_example
    (to_string (drop 2 (node_argv "delete-properties" "export.csv") !! 1%nat))
    = inr deletion_rows_example /\
  status (main (P := deletion_example) (node_argv "delete-properties" "export.csv")
            example_store) = 0%Z.
Proof.
  assert (drop 2 (node_argv "export" "export.csv") !! 0%nat <> Some "import" /\
          drop 2 (node_argv "export" "export.csv") !! 0%nat <> Some "delete-properties" /\
          drop 2 (node_argv "export" "export.csv") !! 0%nat <> Some "delete-groups")
    as Hbad by (repeat split; discriminate).
  split; [exact Hbad |].
  split.
  { exact (proj1 (main_exit_status (P := deletion_example)
                    (node_argv "export" "export.csv") example_store)
             (or_intror (or_intror Hbad))). }
  split; [reflexivity |]. split; [reflexivity |]. split; [reflexivity |].
  split; [reflexivity |].
  exact (proj2 (main_exit_status (P := deletion_example)
                  (node_argv "delete-properties" "export.csv") example_store)
           eq_refl eq_refl (or_intror (or_introl eq_refl))
           (ex_intro _ deletion_rows_example eq_refl)).
Defined.

(** ** The scenarios of the specification *)

(** One free-text definition and an empty store: the grouping is created,
    then the definition; a second run updates it. *)
Example score_is_created_then_updated :
  calls (output (importProperties (P := score_example) "export.csv" empty_store)) =
    [(GET, GROUPS_URL); (POST, GROUPS_URL);
     (GET, BASE_URL +:+ "/named/score"); (POST, BASE_URL)] /\
  calls (output (importProperties (P := score_example) "export.csv"
                   (world (importProperties (P := score_example) "export.csv"
                             empty_store)))) =
    [(GET, GROUPS_URL);
     (GET, BASE_URL +:+ "/named/score"); (PUT, BASE_URL +:+ "/named/score")].
Proof. split; reflexivity. Qed.

(** The same name twice in one file, with a row in between whose options
    are malformed: a create, then an update, and updates only in a second
    run. *)
Example duplicate_names_create_then_update :
  method <$> writes (output (importProperties (P := twice_example) "export.csv"
                               empty_store)) = [POST; PUT] /\
  method <$> writes (output (importProperties (P := twice_example) "export.csv"
                               (world (importProperties (P := twice_example) "export.csv"
                                         empty_store)))) = [PUT; PUT].
Proof. split; reflexivity. Qed.

(** Targets "a" and "b", of which the store holds only "a": "a" is deleted,
    "b" is not found and is not a failure. *)
Example a_is_deleted_b_is_not_found :
  outcome (deletePropertiesFromCSV (P := a_b_example) "export.csv"
             {| groups := []; definitions := [entity "a" false false] |}) = Returned [] /\
  calls (output (deletePropertiesFromCSV (P := a_b_example) "export.csv"
                   {| groups := []; definitions := [entity "a" false false] |})) =
    [(GET, BASE_URL); (GET, BASE_URL +:+ "/named/a"); (DELETE, BASE_URL +:+ "/named/a")] /\
  definitions (world (deletePropertiesFromCSV (P := a_b_example) "export.csv"
                        {| groups := []; definitions := [entity "a" false false] |})) = [].
Proof. repeat split; reflexivity. Qed.

(** A read-only target is fetched, never deleted, and reported. *)
Example c_is_read_only :
  outcome (deletePropertiesFromCSV (P := c_example) "export.csv" example_store)
    = Returned [Some "c"] /\
  calls (output (deletePropertiesFromCSV (P := c_example) "export.csv" example_store)) =
    [(GET, BASE_URL); (GET, BASE_URL +:+ "/named/c")].
Proof. split; reflexivity. Qed.

(** * Further properties of the program *)

Section Helpers.
Context {P : Platform}.

(** The complete behaviour of the grouping check, by what the server
    answers. *)
Lemma createGroupIfNotExists_cases (g : value) (w : World) :
  createGroupIfNotExists g w =
    let listing := remote w groups_list_request in
    let failure (msg : string) :=
      ConsoleError [Text ("Error with property group " +:+ to_string g +:+ ":");
                    Text msg] in
    let failed (msg : string) :=
      {| outcome := Returned tt; world := listing.2;
         output := [Http groups_list_request listing.1; failure msg] |} in
    match listing.1 with
    | inl e => failed (message e)
    | inr (BArray l) =>
        match array_some "name" (fun group => bool_decide (name group = g)) l with
        | inl error => failed (error_message error)
        | inr true =>
            {| outcome := Returned tt; world := listing.2;
               output := [Http groups_list_request listing.1] |}
        | inr false =>
            let creation := remote listing.2 (group_create_request g) in
            {| outcome := Returned tt; world := creation.2;
               output :=
                 [Http groups_list_request listing.1;
                  Http (group_create_request g) creation.1;
                  match creation.1 with
                  | inl e => failure (message e)
                  | inr _ =>
                      ConsoleLog [Text ("Created property group: " +:+ to_string g)]
                  end] |}
        end
    | inr BNull => failed (error_message (null_field "some"))
    | inr _ => failed "response.data.some is not a function"
    end.
Proof.
  unfold createGroupIfNotExists, data_some, of_result. run.
  destruct (remote w groups_list_request) as [[e | [l | p | |]] w1]; reduce; try done.
  destruct (array_some _ _ l) as [error | []]; reduce; [done | done |].
  by destruct (remote w1 (group_create_request g)) as [[e | body] w2].
Qed.

(** What [some] makes of an array, by its elements: the objects that do not
    satisfy [f] are passed over, and the first other element decides. *)
Lemma array_some_app (field : string) (f : Property -> bool)
    (l1 l2 : list (option Property)) :
  Forall (fun element => exists p, element = Some p /\ f p = false) l1 ->
  array_some field f (l1 ++ l2) = array_some field f l2.
Proof.
  induction 1 as [| element l1 (p & -> & Hp) _ IH]; [done |].
  cbn [app array_some]. by rewrite Hp.
Qed.

Lemma array_some_false (field : string) (f : Property -> bool)
    (l : list (option Property)) :
  array_some field f l = inr false <->
  Forall (fun element => exists p, element = Some p /\ f p = false) l.
Proof.
  split.
  - induction l as [| [p |] l IH]; cbn [array_some]; [constructor | | done].
    destruct (f p) eqn:Hp; [done |]. intros Hl. constructor; eauto.
  - intros Hl. rewrite <- (app_nil_r l). by rewrite array_some_app.
Qed.

(** The complete behaviour of one step of the Batch Deleter. *)
Lemma deletion_step_cases (cp : list Property) (size index : nat)
    (failed : list value) (n : value) (w : World) :
  deletion_step cp size index failed n w =
    if in_snapshot cp n then
      let fetch := remote w (details_request n) in
      let details := lookup_result fetch.1 in
      if found details && negb (details_readOnly details) then
        let deletion := remote fetch.2 (delete_request n) in
        {| outcome := Returned (if succeeded deletion.1 then failed else failed ++ [n]);
           world := deletion.2;
           output :=
             [processing_log size index n;
              Http (details_request n) fetch.1;
              Http (delete_request n) deletion.1;
              match deletion.1 with
              | inl e =>
                  ConsoleError
                    [Text ("Error deleting property " +:+ to_string n +:+ ":");
                     Text (message e)]
              | inr _ => ConsoleLog [Text ("Deleted property: " +:+ to_string n)]
              end;
              Sleep 1000] |}
      else
        {| outcome := Returned (failed ++ [n]);
           world := fetch.2;
           output :=
             [processing_log size index n;
              Http (details_request n) fetch.1;
              skipping_log n;
              Sleep 1000] |}
    else
      {| outcome := Returned failed; world := w;
         output := [processing_log size index n; not_found_log n] |}.
Proof.
  unfold deletion_step, getPropertyDetails, deleteProperty.
  destruct (in_snapshot cp n); [| reflexivity]. run.
  destruct (remote w (details_request n)) as [[e | [l | p | |]] w1]; reduce;
    try reflexivity; try destruct (readOnly p); reduce; try reflexivity;
    by destruct (remote w1 (delete_request n)) as [[e' | b'] w2].
Qed.

Lemma deletion_step_events (cp : list Property) (size index : nat)
    (failed : list value) (n : value) (w : World) :
  List.filter is_sleep (output (deletion_step cp size index failed n w)) =
    (if in_snapshot cp n then [Sleep 1000] else []) /\
  List.filter is_report (output (deletion_step cp size index failed n w)) = [] /\
  Forall (fun req => req = details_request n \/ req = delete_request n)
    (requests (output (deletion_step cp size index failed n w))) /\
  exists more,
    outcome (deletion_step cp size index failed n w) = Returned (failed ++ more) /\
    more `sublist_of` (if in_snapshot cp n then [n] else []).
Proof.
  rewrite deletion_step_cases. cbv zeta.
  destruct (in_snapshot cp n).
  - destruct (found _ && negb _).
    + destruct (remote _ (delete_request n)) as [[e | body] w2]; cbn;
        (split; [done |]); (split; [done |]);
        (split; [repeat (apply Forall_cons_2; [auto |]); apply Forall_nil_2 |]).
      * exists [n]. done.
      * exists []. split; [by rewrite app_nil_r | apply sublist_nil_l].
    + cbn. split; [done |]. split; [done |]. split; [repeat (apply Forall_cons_2; [auto |]); apply Forall_nil_2 |].
      exists [n]. done.
  - cbn. split; [done |]. split; [done |]. split; [constructor |].
    exists []. by rewrite app_nil_r.
Qed.

Lemma deletion_loop_events (cp : list Property) (size index : nat)
    (failed targets : list value) (w : World) :
  List.filter is_sleep (output (deletion_loop cp size index failed targets w)) =
    replicate (length (List.filter (in_snapshot cp) targets)) (Sleep 1000) /\
  List.filter is_report (output (deletion_loop cp size index failed targets w)) = [] /\
  Forall (fun req => exists n, req = details_request n \/ req = delete_request n)
    (requests (output (deletion_loop cp size index failed targets w))) /\
  exists more,
    outcome (deletion_loop cp size index failed targets w) = Returned (failed ++ more) /\
    more `sublist_of` List.filter (in_snapshot cp) targets.
Proof.
  revert index failed w. induction targets as [| n targets IH]; intros index failed w.
  - cbn. repeat split; try done. exists []. by rewrite app_nil_r.
  - cbn [deletion_loop List.filter].
    destruct (deletion_step_events cp size index failed n w)
      as (Hsleep & Hreport & Hreqs & more1 & Hout & Hsub1).
    rewrite (bind_returned _ _ _ _ Hout).
    rewrite outcome_after, output_after, requests_app, !List.filter_app.
    destruct (IH (S index) (failed ++ more1)
                (world (deletion_step cp size index failed n w)))
      as (-> & -> & Hreqs' & more2 & -> & Hsub2).
    rewrite Hsleep, Hreport. split.
    { by destruct (in_snapshot cp n). }
    split; [done |]. split.
    { apply Forall_app. split; [| done].
      eapply Forall_impl; [exact Hreqs |]. intros req Hreq. by exists n. }
    exists (more1 ++ more2). rewrite <- app_assoc. split; [done |].
    destruct (in_snapshot cp n).
    + by apply (sublist_app more1 [n] more2).
    + apply sublist_nil_r in Hsub1 as ->. done.
Qed.

(** The complete behaviour of the snapshot fetch. *)
Lemma getAllCustomProperties_cases (w : World) :
  getAllCustomProperties w =
    let listing := remote w properties_list_request in
    let report (error : Exn) :=
      ConsoleError [Text "Error fetching custom properties:"; Caught error] in
    {| outcome := Returned (snapshot_of listing.1);
       world := listing.2;
       output :=
         [ConsoleLog [Text "Fetching all custom properties..."];
          Http properties_list_request listing.1;
          match listing.1 with
          | inl e => report (AxiosErr e)
          | inr (BArray l) =>
              if forallb (fun element : option Property =>
                            bool_decide (is_Some element)) l
              then ConsoleLog
                     [Text ("Found " +:+ pretty (length (snapshot_of listing.1))
                              +:+ " custom properties.")]
              else report (null_field "hubspotDefined")
          | inr BNull => report (null_field "filter")
          | inr _ => report (TypeError "response.data.filter is not a function")
          end] |}.
Proof.
  unfold getAllCustomProperties, data_filter, of_result. run.
  destruct (remote w properties_list_request) as [[e | [l | p | |]] w1]; reduce;
    try done.
  rewrite array_filter_spec. by destruct (forallb _ l).
Qed.

(** The events of a run of the Batch Deleter on a readable file. *)
Lemma deletePropertiesFromCSV_output (path : string) (rows : list row) (w : World)
    (failed : list value) :
  read_csv path = inr rows ->
  let cp := snapshot_of (remote w properties_list_request).1 in
  let targets := foldl delete_on_data [] rows in
  let loop := deletion_loop cp (length targets) 1 [] targets
                (remote w properties_list_request).2 in
  outcome loop = Returned failed ->
  output (deletePropertiesFromCSV path w) =
    [ConsoleLog [Text ("Starting property deletion from file: " +:+ path)]]
      ++ output (getAllCustomProperties w)
      ++ [ConsoleLog [Text ("Found " +:+ pretty (length targets)
                              +:+ " properties to delete.")]]
      ++ output loop
      ++ (if bool_decide (0 < length failed)%nat
          then [ConsoleError [Text "Failed to delete the following properties:";
                              Names failed]]
          else [])
      ++ [ConsoleLog [Text "Property deletion completed."]].
Proof.
  intros Hread cp targets loop Hloop.
  destruct (getAllCustomProperties_run w) as (Hsnap & Hw1 & _).
  unfold deletePropertiesFromCSV, read_rows. rewrite Hread.
  rewrite bind_console_log.
  rewrite (bind_returned _ _ _ _ Hsnap). rewrite bind_ret, after_nil. cbv zeta.
  rewrite bind_console_log. rewrite Hw1.
  fold cp targets loop. rewrite (bind_returned _ _ _ _ Hloop).
  rewrite !output_after. do 4 f_equal.
  by destruct (bool_decide (0 < length failed)%nat).
Qed.

(** What the three workflows do when the file cannot be read. *)
Lemma importProperties_unreadable (path msg : string) (w : World) :
  read_csv path = inl msg ->
  importProperties path w =
    {| outcome := Thrown (StreamError msg); world := w;
       output := [ConsoleLog [Text ("Starting import from file: " +:+ path)]] |}.
Proof. intros Hread. unfold importProperties, read_rows. by rewrite Hread. Qed.

Lemma deleteGroupsFromCSV_unreadable (path msg : string) (w : World) :
  read_csv path = inl msg ->
  deleteGroupsFromCSV path w =
    {| outcome := Thrown (StreamError msg); world := w;
       output := [ConsoleLog [Text ("Starting group deletion from file: " +:+ path)]] |}.
Proof. intros Hread. unfold deleteGroupsFromCSV, read_rows. by rewrite Hread. Qed.

Lemma deletePropertiesFromCSV_unreadable (path msg : string) (w : World) :
  read_csv path = inl msg ->
  deletePropertiesFromCSV path w =
    {| outcome := Thrown (StreamError msg);
       world := (remote w properties_list_request).2;
       output :=
         ConsoleLog [Text ("Starting property deletion from file: " +:+ path)]
           :: output (getAllCustomProperties w) |}.
Proof.
  intros Hread. destruct (getAllCustomProperties_run w) as (Hsnap & Hw1 & _).
  unfold deletePropertiesFromCSV, read_rows. rewrite Hread.
  rewrite bind_console_log, (bind_returned _ _ _ _ Hsnap), Hw1.
  unfold bind, throw, after. cbn. by rewrite app_nil_r.
Qed.

(** The forms of the requests of the Reconciler and of the Batch Deleter. *)
Lemma reconciled_forms (props : list Property) (reqs : list Request) :
  reconciled props reqs -> Forall import_request reqs.
Proof.
  induction 1 as [| prop props checks written rest Hc Hw _ IH]; [constructor |].
  apply Forall_app. split.
  { destruct Hc as [-> | ->]; repeat (apply Forall_cons_2 || apply Forall_nil_2);
      unfold import_request; eauto. }
  apply Forall_app. split; [| done].
  unfold looked_up_and_written in Hw.
  destruct (options_value (options prop)).
  - subst written. apply Forall_cons_2; [| apply Forall_nil_2].
    unfold import_request. eauto 6.
  - destruct Hw as [existing ->].
    repeat (apply Forall_cons_2 || apply Forall_nil_2); unfold import_request; eauto 8.
Qed.

Lemma importProperties_forms (path : string) (w : World) :
  Forall import_request (requests (output (importProperties path w))).
Proof.
  destruct (read_csv path) as [msg | rows] eqn:Hread.
  - rewrite (importProperties_unreadable path msg w Hread). constructor.
  - destruct (importProperties_run path rows w Hread) as [_ Hrec].
    by eapply reconciled_forms.
Qed.

Lemma deletePropertiesFromCSV_forms (path : string) (w : World) :
  Forall deletion_request (requests (output (deletePropertiesFromCSV path w))).
Proof.
  destruct (getAllCustomProperties_run w) as (_ & _ & Hsnap & _).
  destruct (read_csv path) as [msg | rows] eqn:Hread.
  - rewrite (deletePropertiesFromCSV_unreadable path msg w Hread). cbn [output requests].
    rewrite Hsnap. apply Forall_cons_2; [| apply Forall_nil_2]. by left.
  - destruct (deletion_loop_events (snapshot_of (remote w properties_list_request).1)
                (length (foldl delete_on_data [] rows)) 1 []
                (foldl delete_on_data [] rows) (remote w properties_list_request).2)
      as (_ & _ & Hreqs & more & Hloop & _).
    destruct (deletePropertiesFromCSV_run path rows w _ Hread Hloop)
      as (_ & _ & -> & _).
    apply Forall_cons_2; [by left |].
    eapply Forall_impl; [exact Hreqs |].
    intros req [n [-> | ->]]; unfold deletion_request; eauto.
Qed.

Lemma deleteGroupsFromCSV_forms (path : string) (w : World) :
  Forall (fun req => exists g, req = group_delete_request g)
    (requests (output (deleteGroupsFromCSV path w))).
Proof.
  destruct (read_csv path) as [msg | rows] eqn:Hread.
  - rewrite (deleteGroupsFromCSV_unreadable path msg w Hread). constructor.
  - destruct (deleteGroupsFromCSV_run path rows w Hread) as (_ & -> & _).
    apply Forall_fmap, Forall_forall. intros g _. by exists g.
Qed.

End Helpers.

(** ** The grouping check *)

Section GroupingCheck.
Context {P : Platform}.

(** X1.  [createGroupIfNotExists] first lists the groupings, and sends at
    most one more request: the creation of the grouping, with [name] and
    [displayName] both set to the name asked for.  It sends the creation
    exactly when the listing succeeded with an array whose elements are all
    objects with another name.  A failed listing, a body that is not an
    array, an element with that name and a [null] element each leave the
    listing as the only request. *)
Theorem createGroupIfNotExists_creates_when_missing (g : value) (w : World) :
  let listing :=
    {| method := GET; url := GROUPS_URL; data := NoData;
       headers := [("Authorization", "Bearer " +:+ to_string API_KEY)] |} in
  let creation :=
    {| method := POST; url := GROUPS_URL; data := GroupData g g;
       headers := [("Content-Type", "application/json");
                   ("Authorization", "Bearer " +:+ to_string API_KEY)] |} in
  (requests (output (createGroupIfNotExists g w)) = [listing] \/
   requests (output (createGroupIfNotExists g w)) = [listing; creation]) /\
  (requests (output (createGroupIfNotExists g w)) = [listing; creation] <->
   exists l : list (option Property),
     (remote w listing).1 = inr (BArray l) /\
     Forall (fun element => exists group, element = Some group /\ name group <> g) l).
Proof.
  intros listing creation.
  assert (forall l : list (option Property),
            array_some "name" (fun group => bool_decide (name group = g)) l = inr false <->
            Forall (fun element => exists group, element = Some group /\ name group <> g) l)
    as Hsome.
  { intros l. rewrite array_some_false. apply Forall_proper; [| done].
    intros element. split; intros (group & -> & Hgroup); exists group; (split; [done |]).
    - by apply bool_decide_eq_false in Hgroup.
    - by apply bool_decide_eq_false. }
  rewrite createGroupIfNotExists_cases. cbv zeta.
  change groups_list_request with listing. change (group_create_request g) with creation.
  destruct (remote w listing) as [[e | [l | p | |]] w1]; cbn [fst snd output requests].
  - split; [auto |]. split; [discriminate | by intros (l & ? & _)].
  - destruct (array_some _ _ l) as [error | []] eqn:Hl; cbn [output requests].
    + split; [auto |]. split; [discriminate |].
      intros (l' & [= <-] & Hl'%Hsome). congruence.
    + split; [auto |]. split; [discriminate |].
      intros (l' & [= <-] & Hl'%Hsome). congruence.
    + destruct (remote w1 creation) as [[e' | body'] w2]; cbn [fst snd output requests];
        (split; [auto |]); (split; [| done]); intros _; exists l;
        (split; [done | by apply Hsome]).
  - split; [auto |]. split; [discriminate | by intros (l & ? & _)].
  - split; [auto |]. split; [discriminate | by intros (l & ? & _)].
  - split; [auto |]. split; [discriminate | by intros (l & ? & _)].
Qed.

(** X2.  [createGroupIfNotExists] never throws, and reports at most one
    error.  A failed listing and a failed creation are reported with the
    message of the failure.  A body that is not an array, and a [null]
    element met before an element with the name asked for, are reported
    too, with the message of the [TypeError].  Nothing is reported when an
    element with that name comes first, or when the creation succeeds; the
    creation is announced exactly when its request succeeded. *)
Theorem createGroupIfNotExists_swallows_failures (g : value) (w : World) :
  let listing :=
    remote w {| method := GET; url := GROUPS_URL; data := NoData;
                headers := [("Authorization", "Bearer " +:+ to_string API_KEY)] |} in
  let creation :=
    remote listing.2
      {| method := POST; url := GROUPS_URL; data := GroupData g g;
         headers := [("Content-Type", "application/json");
                     ("Authorization", "Bearer " +:+ to_string API_KEY)] |} in
  let failure (msg : string) :=
    ConsoleError [Text ("Error with property group " +:+ to_string g +:+ ":");
                  Text msg] in
  let created := ConsoleLog [Text ("Created property group: " +:+ to_string g)] in
  let others (l : list (option Property)) :=
    Forall (fun element => exists group, element = Some group /\ name group <> g) l in
  let errors := List.filter is_error (output (createGroupIfNotExists g w)) in
  outcome (createGroupIfNotExists g w) = Returned tt /\
  (forall e, listing.1 = inl e -> errors = [failure (message e)]) /\
  (forall l, listing.1 = inr (BArray l) -> others l ->
     errors = match creation.1 with
              | inl e => [failure (message e)]
              | inr _ => []
              end) /\
  (forall l1 group l2,
     listing.1 = inr (BArray (l1 ++ Some group :: l2)) -> others l1 ->
     name group = g -> errors = []) /\
  (forall l1 l2,
     listing.1 = inr (BArray (l1 ++ None :: l2)) -> others l1 ->
     exists msg, errors = [failure msg]) /\
  (forall body,
     listing.1 = inr body -> (forall l, body <> BArray l) ->
     exists msg, errors = [failure msg]) /\
  (created ∈ output (createGroupIfNotExists g w) <->
   exists l body,
     listing.1 = inr (BArray l) /\ others l /\ creation.1 = inr body).
Proof.
  intros listing creation failure created others errors.
  assert (forall l, others l ->
            Forall (fun element => exists p, element = Some p /\
                                     bool_decide (name p = g) = false) l) as Hothers.
  { intros l Hl. eapply Forall_impl; [exact Hl |]. intros element (group & -> & Hgroup).
    exists group. split; [done | by apply bool_decide_eq_false]. }
  assert (forall l, others l <->
            array_some "name" (fun group => bool_decide (name group = g)) l = inr false)
    as Hfalse.
  { intros l. rewrite array_some_false. split; [apply Hothers |].
    intros Hl. eapply Forall_impl; [exact Hl |]. intros element (group & -> & Hgroup).
    exists group. split; [done | by apply bool_decide_eq_false in Hgroup]. }
  subst errors. rewrite createGroupIfNotExists_cases. cbv zeta.
  change (remote w groups_list_request) with listing.
  change (remote listing.2 (group_create_request g)) with creation.
  destruct listing.1 as [e | [l | p | |]] eqn:Hlisting.
  - cbn. split; [done |]. split; [by intros ? [= <-] |].
    split; [done |]. split; [done |]. split; [done |]. split; [done |].
    split; [| by intros (l & body & ? & _)].
    rewrite !elem_of_cons, elem_of_nil. intuition discriminate.
  - destruct (array_some _ _ l) as [error | []] eqn:Hl.
    + cbn. split; [done |]. split; [done |].
      split; [intros l' [= <-] Hl'%Hfalse; congruence |].
      split.
      { intros l1 group l2 [= ->] Hl1%Hothers Hgroup.
        rewrite (array_some_app _ _ _ _ Hl1) in Hl. cbn [array_some] in Hl.
        by rewrite bool_decide_eq_true_2 in Hl. }
      split; [eauto |]. split; [eauto |].
      split; [| intros (l' & body & [= <-] & Hl'%Hfalse & _); congruence].
      rewrite !elem_of_cons, elem_of_nil. intuition discriminate.
    + cbn. split; [done |]. split; [done |].
      split; [intros l' [= <-] Hl'%Hfalse; congruence |].
      split; [done |].
      split.
      { intros l1 l2 [= ->] Hl1%Hothers.
        by rewrite (array_some_app _ _ _ _ Hl1) in Hl. }
      split; [intros body [= <-] Hnot; by destruct (Hnot l) |].
      split; [| intros (l' & body & [= <-] & Hl'%Hfalse & _); congruence].
      rewrite !elem_of_cons, elem_of_nil. intuition discriminate.
    + split; [done |]. split; [done |].
      split.
      { intros l' [= <-] _. by destruct creation.1. }
      split.
      { intros l1 group l2 [= ->] Hl1%Hothers Hgroup.
        rewrite (array_some_app _ _ _ _ Hl1) in Hl. cbn [array_some] in Hl.
        by rewrite bool_decide_eq_true_2 in Hl. }
      split.
      { intros l1 l2 [= ->] Hl1%Hothers.
        by rewrite (array_some_app _ _ _ _ Hl1) in Hl. }
      split; [intros body [= <-] Hnot; by destruct (Hnot l) |].
      cbn [output]. destruct creation.1 as [e | body] eqn:Hcreation.
      * split; [| by intros (l' & body & _ & _ & ?)].
        rewrite !elem_of_cons, elem_of_nil. intuition discriminate.
      * split.
        -- intros _. exists l, body. split; [done |]. split; [by apply Hfalse | done].
        -- intros _. rewrite !elem_of_cons. auto.
  - cbn. split; [done |]. split; [done |]. split; [done |]. split; [done |].
    split; [done |]. split; [eauto |].
    split; [| by intros (l & body & ? & _)].
    rewrite !elem_of_cons, elem_of_nil. intuition discriminate.
  - cbn. split; [done |]. split; [done |]. split; [done |]. split; [done |].
    split; [done |]. split; [eauto |].
    split; [| by intros (l & body & ? & _)].
    rewrite !elem_of_cons, elem_of_nil. intuition discriminate.
  - cbn. split; [done |]. split; [done |]. split; [done |]. split; [done |].
    split; [done |]. split; [eauto |].
    split; [| by intros (l & body & ? & _)].
    rewrite !elem_of_cons, elem_of_nil. intuition discriminate.
Qed.

End GroupingCheck.

(** ** Creating and updating definitions *)

Section Writing.
Context {P : Platform}.

(** X4.  When the options of [prop] can be deserialized,
    [createOrUpdateProperty] never throws and returns [true] exactly when
    the create or update request succeeded.  On success it announces
    "Created" or "Updated" according to what the lookup returned; on failure
    it reports the status and body of the error response, or the message of
    the error when there was no response. *)
Theorem createOrUpdateProperty_returns_success (prop : Property) (opts : option json)
    (w : World) :
  options_value (options prop) = inr opts ->
  let lookup := remote w (details_request (name prop)) in
  let existing := found (lookup_result lookup.1) in
  let write := remote lookup.2 (definition_request existing prop opts) in
  createOrUpdateProperty prop w =
    {| outcome := Returned (succeeded write.1);
       world := write.2;
       output :=
         [Http (details_request (name prop)) lookup.1;
          Http (definition_request existing prop opts) write.1;
          match write.1 with
          | inr _ =>
              ConsoleLog [Text ((if existing then "Updated" else "Created")
                                  +:+ " property: " +:+ to_string (name prop))]
          | inl {| response := Some (status, body) |} =>
              ConsoleError
                [Text ("Error processing property " +:+ to_string (name prop) +:+ ": "
                         +:+ pretty status +:+ " - " +:+ JSON_stringify body)]
          | inl e =>
              ConsoleError
                [Text ("Error processing property " +:+ to_string (name prop) +:+ ":");
                 Text (message e)]
          end] |}.
Proof.
  intros Hopts. unfold createOrUpdateProperty, parse_options, getPropertyDetails.
  rewrite Hopts. run.
  destruct (remote w (details_request (name prop))) as [[e | body] w1]; reduce;
    (destruct (remote w1 _) as [[e' | body'] w2]; reduce; [| done]);
    by destruct e' as [m [[st b] |]].
Qed.

(** What a row of the export becomes on the wire. *)
Lemma definition_request_of_row (r : row) (existing : bool) (opts : option json) :
  definition_request existing (property_of_row r) opts =
    {| method := if existing then PUT else POST;
       url := if existing
              then BASE_URL +:+ "/named/" +:+ to_string (r !! "Internal name")
              else BASE_URL;
       data := DefinitionData
                 {| data_name := r !! "Internal name";
                    data_label := r !! "Name";
                    data_description := r !! "Description";
                    data_groupName := r !! "Group name";
                    data_type := r !! "Type";
                    data_fieldType :=
                      if bool_decide (r !! "Form field" = Some "true")
                      then "text" else "textarea";
                    data_formField := bool_decide (r !! "Form field" = Some "true");
                    data_options := opts |};
       headers := [("Content-Type", "application/json");
                   ("Authorization", "Bearer " +:+ to_string API_KEY)] |}.
Proof.
  unfold definition_request, definition_data, property_of_row, is_true, named_url,
    json_headers, authorization.
  cbn [name label description groupName type fieldType].
  by destruct (bool_decide (r !! "Form field" = Some "true")).
Qed.

End Writing.

(** ** The Batch Deleter *)

Section Deleting.
Context {P : Platform}.

Lemma filter_sublist {A} (f : A -> bool) (l : list A) : List.filter f l `sublist_of` l.
Proof.
  induction l as [| x l IH]; simpl; [constructor |].
  destruct (f x); by constructor.
Qed.

(** X3.  [getAllCustomProperties] sends the listing and never throws.
    From a listing that is an array of objects it returns exactly the
    entries whose [hubspotDefined] is false, in order and as often as they
    occur, and reports no error.  When the array holds a [null], when the
    request fails and when the body is not an array it returns the empty
    list and reports the error it caught: the [TypeError] of the callback
    or of the missing method, or the error of the request. *)
Theorem getAllCustomProperties_keeps_custom_entries (w : World) :
  let request :=
    {| method := GET; url := BASE_URL; data := NoData;
       headers := [("Authorization", "Bearer " +:+ to_string API_KEY)] |} in
  let listing := (remote w request).1 in
  let report (error : Exn) :=
    ConsoleError [Text "Error fetching custom properties:"; Caught error] in
  let errors := List.filter is_error (output (getAllCustomProperties w)) in
  requests (output (getAllCustomProperties w)) = [request] /\
  (forall entries : list Property,
     listing = inr (BArray (Some <$> entries)) ->
     outcome (getAllCustomProperties w) =
       Returned (List.filter (fun prop => negb (hubspotDefined prop)) entries) /\
     errors = []) /\
  (forall l : list (option Property),
     listing = inr (BArray l) -> None ∈ l ->
     outcome (getAllCustomProperties w) = Returned [] /\
     exists msg, errors = [report (TypeError msg)]) /\
  (forall e,
     listing = inl e ->
     outcome (getAllCustomProperties w) = Returned [] /\
     errors = [report (AxiosErr e)]) /\
  (forall body,
     listing = inr body -> (forall l, body <> BArray l) ->
     outcome (getAllCustomProperties w) = Returned [] /\
     exists msg, errors = [report (TypeError msg)]).
Proof.
  intros request listing report errors.
  assert (forall entries : list Property,
            forallb (fun element : option Property => bool_decide (is_Some element))
              (Some <$> entries) = true /\
            omap id (Some <$> entries) = entries) as Hobjects.
  { induction entries as [| p entries [IH1 IH2]]; [done |].
    rewrite fmap_cons. cbn [forallb omap list_omap id]. rewrite IH1, IH2.
    by rewrite bool_decide_eq_true_2 by eauto. }
  assert (forall l : list (option Property),
            None ∈ l ->
            forallb (fun element : option Property => bool_decide (is_Some element)) l
              = false) as Hnull.
  { induction l as [| [p |] l IH]; intros Hl.
    - by apply elem_of_nil in Hl.
    - apply elem_of_cons in Hl as [? | Hl]; [done |].
      cbn [forallb]. rewrite (IH Hl). apply andb_false_r.
    - done. }
  subst errors. rewrite getAllCustomProperties_cases. cbv zeta.
  change properties_list_request with request.
  change (remote w request).1 with listing.
  destruct listing as [e | [l | p | |]] eqn:Hlisting.
  - cbn [outcome output requests List.filter is_error snapshot_of].
    split; [done |]. split; [done |]. split; [done |].
    split; [by intros ? [= <-] |]. done.
  - cbn [snapshot_of].
    destruct (forallb _ l) eqn:Hall;
      cbn [outcome output requests List.filter is_error];
      (split; [done |]).
    + split.
      { intros entries [= ->]. by rewrite (proj2 (Hobjects entries)). }
      split; [intros l' [= <-] Hl; rewrite (Hnull l Hl) in Hall; discriminate |].
      split; [done |]. intros body [= <-] Hnot. by destruct (Hnot l).
    + split.
      { intros entries [= ->]. rewrite (proj1 (Hobjects entries)) in Hall. discriminate. }
      split; [intros l' [= <-] Hl; split; [done |]; unfold null_field; eauto |].
      split; [done |]. intros body [= <-] Hnot. by destruct (Hnot l).
  - cbn [outcome output requests List.filter is_error snapshot_of].
    split; [done |]. split; [done |]. split; [done |]. split; [done |].
    intros _ _ _. split; [done |]. eauto.
  - cbn [outcome output requests List.filter is_error snapshot_of].
    split; [done |]. split; [done |]. split; [done |]. split; [done |].
    intros _ _ _. split; [done |]. unfold null_field. eauto.
  - cbn [outcome output requests List.filter is_error snapshot_of].
    split; [done |]. split; [done |]. split; [done |]. split; [done |].
    intros _ _ _. split; [done |]. eauto.
Qed.

(** X5.  A target that is in the snapshot and whose detail fetch returns an
    entity that is not read-only is deleted with one DELETE request.  The
    step adds the name to the failures exactly when that request fails,
    logs the deletion or the error, and pauses for one second. *)
Theorem deletable_target_is_deleted (cp : list Property) (size index : nat)
    (failed : list value) (n : value) (p : Property) (w : World) :
  in_snapshot cp n = true ->
  (remote w (details_request n)).1 = inr (BObject p) ->
  readOnly p = false ->
  let fetched := (remote w (details_request n)).2 in
  let deletion := remote fetched (delete_request n) in
  deletion_step cp size index failed n w =
    {| outcome := Returned (match deletion.1 with
                            | inr _ => failed
                            | inl _ => failed ++ [n]
                            end);
       world := deletion.2;
       output :=
         [ConsoleLog [Text ("Processing deletion " +:+ pretty index +:+ " of "
                              +:+ pretty size +:+ ": " +:+ to_string n)];
          Http {| method := GET; url := BASE_URL +:+ "/named/" +:+ to_string n;
                  data := NoData; headers := auth_headers |}
               (inr (BObject p));
          Http {| method := DELETE; url := BASE_URL +:+ "/named/" +:+ to_string n;
                  data := NoData; headers := auth_headers |}
               deletion.1;
          match deletion.1 with
          | inr _ => ConsoleLog [Text ("Deleted property: " +:+ to_string n)]
          | inl e =>
              ConsoleError [Text ("Error deleting property " +:+ to_string n +:+ ":");
                            Text (message e)]
          end;
          Sleep 1000] |}.
Proof.
  intros Hn Hfetch Hp fetched deletion. rewrite deletion_step_cases, Hn. cbv zeta.
  rewrite Hfetch. cbn [lookup_result found details_readOnly]. rewrite Hp. cbn [negb andb].
  fold fetched deletion. by destruct deletion.1.
Qed.

(** X6.  The Batch Deleter pauses for one second once for every target
    that is in the snapshot, whatever became of it, and not at all for the
    targets that are not. *)
Theorem one_pause_per_snapshot_target (path : string) (rows : list row) (w : World) :
  read_csv path = inr rows ->
  let cp := snapshot_of (remote w properties_list_request).1 in
  List.filter is_sleep (output (deletePropertiesFromCSV path w)) =
    replicate (length (List.filter (in_snapshot cp) (foldl delete_on_data [] rows)))
      (Sleep 1000).
Proof.
  intros Hread cp.
  destruct (deletion_loop_events cp (length (foldl delete_on_data [] rows)) 1 []
              (foldl delete_on_data [] rows) (remote w properties_list_request).2)
    as (Hsleep & _ & _ & more & Hloop & _).
  destruct (deletePropertiesFromCSV_run path rows w _ Hread Hloop)
    as (_ & _ & _ & -> & _).
  exact Hsleep.
Qed.

(** X7.  The targets of the Batch Deleter are the 'Internal name' cells of
    the rows whose 'Hubspot defined' cell is not "true", each once, in the
    order of first occurrence: a name repeated in the file is a single
    target.  That many targets are announced. *)
Theorem targets_are_the_distinct_custom_names (path : string) (rows : list row)
    (w : World) :
  read_csv path = inr rows ->
  let targets := foldl delete_on_data [] rows in
  targets =
    first_occurrences
      ((fun r : row => r !! "Internal name")
         <$> List.filter (fun r : row => negb (bool_decide (r !! "Hubspot defined"
                                                              = Some "true"))) rows) /\
  NoDup targets /\
  (forall n, n ∈ targets <->
             exists r, r ∈ rows /\ r !! "Hubspot defined" <> Some "true" /\
                       r !! "Internal name" = n) /\
  ConsoleLog [Text ("Found " +:+ pretty (length targets) +:+ " properties to delete.")]
    ∈ output (deletePropertiesFromCSV path w).
Proof.
  intros Hread targets.
  assert (targets = first_occurrences (custom_names rows)) as Htargets
    by (unfold targets; by rewrite delete_rows, Set_of_list).
  split; [exact Htargets |]. split; [apply targets_NoDup |]. split.
  - intros n. rewrite Htargets, first_occurrences_elem. unfold custom_names.
    rewrite list_elem_of_fmap. split.
    + intros (r & -> & [Hr Hcustom]%list_elem_of_In%List.filter_In).
      exists r. split; [by apply list_elem_of_In |]. split; [| done].
      unfold not_built_in, is_true in Hcustom.
      by apply negb_true_iff, bool_decide_eq_false in Hcustom.
    + intros (r & Hr & Hcustom & <-). exists r. split; [done |].
      apply list_elem_of_In, List.filter_In. split; [by apply list_elem_of_In |].
      unfold not_built_in, is_true. by apply negb_true_iff, bool_decide_eq_false.
  - destruct (deletion_loop_events (snapshot_of (remote w properties_list_request).1)
                (length targets) 1 [] targets (remote w properties_list_request).2)
      as (_ & _ & _ & more & Hloop & _).
    rewrite (deletePropertiesFromCSV_output path rows w _ Hread Hloop).
    fold targets. rewrite !elem_of_app, !list_elem_of_singleton. auto.
Qed.

(** X8.  The failures the Batch Deleter returns are targets that are in
    the snapshot, in the order in which they were processed, and no name
    is reported twice. *)
Theorem failures_are_distinct_snapshot_targets (path : string) (rows : list row)
    (w : World) :
  read_csv path = inr rows ->
  let cp := snapshot_of (remote w properties_list_request).1 in
  exists failedDeletions : list value,
    outcome (deletePropertiesFromCSV path w) = Returned failedDeletions /\
    failedDeletions `sublist_of`
      List.filter (in_snapshot cp) (foldl delete_on_data [] rows) /\
    NoDup failedDeletions.
Proof.
  intros Hread cp.
  destruct (deletion_loop_events cp (length (foldl delete_on_data [] rows)) 1 []
              (foldl delete_on_data [] rows) (remote w properties_list_request).2)
    as (_ & _ & _ & more & Hloop & Hsub).
  destruct (deletePropertiesFromCSV_run path rows w _ Hread Hloop) as (Hout & _).
  exists more. split; [exact Hout |]. split; [exact Hsub |].
  eapply sublist_NoDup; [| exact Hsub].
  apply NoDup_ListNoDup, List.NoDup_filter, NoDup_ListNoDup, targets_NoDup.
Qed.

(** X16.  The list of failed deletions is printed, once, exactly when it
    is not empty. *)
Theorem failures_are_reported_when_any (path : string) (rows : list row) (w : World) :
  read_csv path = inr rows ->
  exists failedDeletions : list value,
    outcome (deletePropertiesFromCSV path w) = Returned failedDeletions /\
    List.filter is_report (output (deletePropertiesFromCSV path w)) =
      match failedDeletions with
      | [] => []
      | _ :: _ =>
          [ConsoleError [Text "Failed to delete the following properties:";
                         Names failedDeletions]]
      end.
Proof.
  intros Hread.
  destruct (deletion_loop_events (snapshot_of (remote w properties_list_request).1)
              (length (foldl delete_on_data [] rows)) 1 []
              (foldl delete_on_data [] rows) (remote w properties_list_request).2)
    as (_ & Hreport & _ & more & Hloop & _).
  destruct (deletePropertiesFromCSV_run path rows w _ Hread Hloop) as (Hout & _).
  exists more. split; [exact Hout |].
  rewrite (deletePropertiesFromCSV_output path rows w _ Hread Hloop).
  rewrite !List.filter_app, Hreport, getAllCustomProperties_cases. cbv zeta.
  cbn [output].
  assert (forall ev, List.filter is_report
            [ConsoleLog [Text "Fetching all custom properties..."];
             Http properties_list_request (remote w properties_list_request).1; ev]
            = List.filter is_report [ev]) as -> by done.
  destruct (remote w properties_list_request).1 as [e | [l | p | |]];
    try (by destruct more).
  destruct (forallb _ l); by destruct more.
Qed.

End Deleting.

(** ** What the workflows never do *)

Section Workflows.
Context {P : Platform}.

(** X9.  [importProperties] never sends a DELETE request: it lists and
    creates groupings, looks definitions up and creates or updates them,
    and nothing else, for every file and every server. *)
Theorem importProperties_never_deletes (path : string) (w : World) :
  Forall (fun req =>
            method req <> DELETE /\
            (req = groups_list_request \/
             (exists g, req = group_create_request g) \/
             (exists n, req = details_request n) \/
             (exists existing prop opts, req = definition_request existing prop opts)))
    (requests (output (importProperties path w))).
Proof.
  eapply Forall_impl; [apply importProperties_forms |].
  intros req Hreq. split; [| exact Hreq].
  destruct Hreq as [-> | [[g ->] | [[n ->] | (existing & prop & opts & ->)]]];
    try discriminate.
  by destruct existing.
Qed.

(** X10.  The two deleters never create or update anything: every request
    of [deletePropertiesFromCSV] is a GET or a DELETE without data, and
    every request of [deleteGroupsFromCSV] is a DELETE without data
    addressed below the groups URL. *)
Theorem deleters_never_write (path : string) (w : World) :
  Forall (fun req => data req = NoData /\ (method req = GET \/ method req = DELETE))
    (requests (output (deletePropertiesFromCSV path w))) /\
  Forall (fun req => data req = NoData /\ method req = DELETE /\
                     exists g, url req = GROUPS_URL +:+ "/" +:+ to_string g)
    (requests (output (deleteGroupsFromCSV path w))).
Proof.
  split.
  - eapply Forall_impl; [apply deletePropertiesFromCSV_forms |].
    intros req [-> | [[n ->] | [n ->]]]; cbn; auto.
  - eapply Forall_impl; [apply deleteGroupsFromCSV_forms |].
    intros req [g ->]. cbn. eauto.
Qed.

Lemma trace_run_to_exit {A} (workflow : M A) (w : World) :
  trace (run_to_exit workflow w) = output (workflow w) /\
  status (run_to_exit workflow w) =
    match outcome (workflow w) with Returned _ => 0%Z | Thrown _ => 1%Z end.
Proof. unfold run_to_exit. by destruct (workflow w) as [[a | e] w' evs]. Qed.

(** X11.  Every request the process sends, whatever the command, the file
    and the server, carries the header [Authorization: Bearer <key>] with
    the key of the environment, and that key is not empty. *)
Theorem every_request_bears_the_credential (argv : list string) (w : World) :
  Forall (fun req =>
            exists key, API_KEY = Some key /\ key <> EmptyString /\
                        ("Authorization", "Bearer " +:+ key) ∈ headers req)
    (requests (trace (main argv w))).
Proof.
  unfold main. destruct API_KEY as [key |] eqn:Hkey; cbn [truthy negb];
    [| constructor].
  destruct (String.eqb_spec key EmptyString) as [-> | Hne]; cbn [negb];
    [constructor |].
  assert (forall req, authorization ∈ headers req ->
            exists key', Some key = Some key' /\ key' <> EmptyString /\
                         ("Authorization", "Bearer " +:+ key') ∈ headers req) as Hauth.
  { intros req Hreq. exists key. split; [done |]. split; [done |].
    unfold authorization in Hreq. by rewrite Hkey in Hreq. }
  cbv zeta. destruct (negb (truthy (drop 2 argv !! 1%nat))); [constructor |].
  repeat case_bool_decide;
    try (unfold exit_with_error; cbn [trace requests]; constructor).
  - rewrite (proj1 (trace_run_to_exit _ _)).
    eapply Forall_impl; [apply importProperties_forms |].
    intros req Hreq. apply Hauth.
    destruct Hreq as [-> | [[g ->] | [[n ->] | (existing & prop & opts & ->)]]];
      cbn; unfold auth_headers, json_headers;
      rewrite ?elem_of_cons; auto.
  - rewrite (proj1 (trace_run_to_exit _ _)).
    eapply Forall_impl; [apply deletePropertiesFromCSV_forms |].
    intros req Hreq. apply Hauth.
    destruct Hreq as [-> | [[n ->] | [n ->]]];
      cbn; unfold auth_headers; rewrite ?elem_of_cons; auto.
  - rewrite (proj1 (trace_run_to_exit _ _)).
    eapply Forall_impl; [apply deleteGroupsFromCSV_forms |].
    intros req [g ->]. apply Hauth.
    cbn; unfold auth_headers; rewrite ?elem_of_cons; auto.
Qed.

(** X12.  When the file cannot be read, the stream's error reaches the top
    uncaught and the process ends with status 1.  The import and the
    grouping deletion have then sent no request; the property deletion
    has already fetched its snapshot, and sent nothing else. *)
Theorem unreadable_file_ends_the_process (command path msg : string) (w : World) :
  truthy API_KEY = true ->
  truthy (Some path) = true ->
  read_csv path = inl msg ->
  command = "import" \/ command = "delete-properties" \/ command = "delete-groups" ->
  status (main ["node"; "index.ts"; command; path] w) = 1%Z /\
  requests (trace (main ["node"; "index.ts"; command; path] w)) =
    (if bool_decide (command = "delete-properties")
     then [properties_list_request] else []).
Proof.
  intros Hkey Hpath Hread Hcommand. unfold main. rewrite Hkey. cbn [negb].
  cbv zeta. cbn [drop lookup list_lookup]. rewrite Hpath. cbn [negb].
  change (to_string (Some path)) with path.
  destruct Hcommand as [-> | [-> | ->]].
  - rewrite bool_decide_eq_true_2 by done.
    destruct (trace_run_to_exit (importProperties path) w) as [-> ->].
    by rewrite (importProperties_unreadable path msg w Hread).
  - rewrite bool_decide_eq_false_2 by done. rewrite bool_decide_eq_true_2 by done.
    destruct (trace_run_to_exit (deletePropertiesFromCSV path) w) as [-> ->].
    rewrite (deletePropertiesFromCSV_unreadable path msg w Hread). cbn [outcome output].
    split; [done |]. cbn [requests].
    by destruct (getAllCustomProperties_run w) as (_ & _ & -> & _).
  - rewrite !bool_decide_eq_false_2 by done. rewrite bool_decide_eq_true_2 by done.
    destruct (trace_run_to_exit (deleteGroupsFromCSV path) w) as [-> ->].
    by rewrite (deleteGroupsFromCSV_unreadable path msg w Hread).
Qed.

Lemma options_value_falsy (opts : value) :
  truthy opts = false -> options_value opts = inr None.
Proof. intros H. unfold options_value. by rewrite H. Qed.

(** X13.  When no row that is not built in has a non-empty 'Options' cell,
    the run sends exactly one create or update request for each such row,
    in input order, with no options in its data, whatever [JSON.parse]
    would make of anything. *)
Theorem rows_without_options_are_all_written (path : string) (rows : list row)
    (w : World) :
  read_csv path = inr rows ->
  Forall (fun r : row => r !! "Hubspot defined" = Some "true" \/
                         r !! "Options" = None \/
                         r !! "Options" = Some EmptyString) rows ->
  Forall2 (fun r req => exists existing : bool,
             req = definition_request existing (property_of_row r) None)
    (List.filter (fun r : row => negb (bool_decide (r !! "Hubspot defined" = Some "true")))
       rows)
    (writes (output (importProperties path w))).
Proof.
  intros Hread Hall.
  destruct (importProperties_run path rows w Hread) as [_ Hrec].
  apply reconciled_writes in Hrec. fold (writes (output (importProperties path w))) in Hrec.
  change (List.filter (fun r : row => negb (bool_decide (r !! "Hubspot defined"
                                                          = Some "true"))) rows)
    with (List.filter not_built_in rows).
  assert (Forall (fun r : row => options_value (r !! "Options") = inr None)
            (List.filter not_built_in rows)) as Hcustom.
  { apply Forall_forall. intros r [Hr Hnot]%list_elem_of_In%List.filter_In.
    apply list_elem_of_In in Hr. rewrite Forall_forall in Hall.
    apply options_value_falsy.
    destruct (Hall r Hr) as [Hb | [-> | ->]]; [| done | done].
    unfold not_built_in, is_true in Hnot. by rewrite Hb in Hnot. }
  clear Hall Hread. revert Hrec Hcustom.
  generalize (writes (output (importProperties path w))).
  induction (List.filter not_built_in rows) as [| r rs IH]; intros reqs Hrec Hcustom.
  - inversion Hrec; subst. constructor.
  - apply Forall_cons in Hcustom as [Hr Hrs]. cbn [fmap list_fmap List.filter] in Hrec.
    unfold transmissible at 1 in Hrec. cbn [options property_of_row] in Hrec.
    rewrite Hr in Hrec.
    inversion Hrec as [| ? req ? reqs' (existing & opts & Hopts & ->) Hrest]; subst.
    cbn [options property_of_row] in Hopts. rewrite Hr in Hopts.
    injection Hopts as <-. constructor; [by exists existing | by apply IH].
Qed.

(** X17.  A file without rows is a valid run of each workflow.  The import
    and the grouping deletion announce zero items and send no request; the
    property deletion fetches its snapshot, announces zero targets and
    returns no failure. *)
Theorem empty_file_is_a_no_op (path : string) (w : World) :
  read_csv path = inr [] ->
  importProperties path w =
    {| outcome := Returned tt; world := w;
       output := [ConsoleLog [Text ("Starting import from file: " +:+ path)];
                  ConsoleLog [Text "Found 0 properties to import."];
                  ConsoleLog [Text "Import completed."]] |} /\
  deleteGroupsFromCSV path w =
    {| outcome := Returned tt; world := w;
       output := [ConsoleLog [Text ("Starting group deletion from file: " +:+ path)];
                  ConsoleLog [Text "Found 0 groups to delete."];
                  ConsoleLog [Text "Group deletion completed."]] |} /\
  outcome (deletePropertiesFromCSV path w) = Returned [] /\
  output (deletePropertiesFromCSV path w) =
    [ConsoleLog [Text ("Starting property deletion from file: " +:+ path)]]
      ++ output (getAllCustomProperties w)
      ++ [ConsoleLog [Text "Found 0 properties to delete."];
          ConsoleLog [Text "Property deletion completed."]].
Proof.
  intros Hread.
  split; [unfold importProperties, read_rows; by rewrite Hread |].
  split; [unfold deleteGroupsFromCSV, read_rows; by rewrite Hread |].
  pose proof (deletePropertiesFromCSV_run path [] w [] Hread eq_refl) as (Hout & _).
  split; [exact Hout |].
  by rewrite (deletePropertiesFromCSV_output path [] w [] Hread eq_refl).
Qed.

(** X14.  Every create or update request of an import carries the cells
    of one row of the file that is not built in: the name, label,
    description, grouping and type are the cells 'Internal name', 'Name',
    'Description', 'Group name' and 'Type'; the field type is ['text'] when
    the 'Form field' cell is "true" and ['textarea'] otherwise, [formField]
    is true exactly in the first case, and the options are the 'Options'
    cell deserialized.  The cells 'Read only value', 'Calculated',
    'External options' and 'Deleted' are never sent. *)
Theorem writes_carry_the_cells_of_a_row (path : string) (rows : list row) (w : World) :
  read_csv path = inr rows ->
  Forall (fun req =>
            exists (r : row) (existing : bool) (opts : option json),
              r ∈ rows /\
              r !! "Hubspot defined" <> Some "true" /\
              options_value (r !! "Options") = inr opts /\
              req =
                {| method := if existing then PUT else POST;
                   url := if existing
                          then BASE_URL +:+ "/named/" +:+ to_string (r !! "Internal name")
                          else BASE_URL;
                   data := DefinitionData
                             {| data_name := r !! "Internal name";
                                data_label := r !! "Name";
                                data_description := r !! "Description";
                                data_groupName := r !! "Group name";
                                data_type := r !! "Type";
                                data_fieldType :=
                                  if bool_decide (r !! "Form field" = Some "true")
                                  then "text" else "textarea";
                                data_formField :=
                                  bool_decide (r !! "Form field" = Some "true");
                                data_options := opts |};
                   headers := [("Content-Type", "application/json");
                               ("Authorization", "Bearer " +:+ to_string API_KEY)] |})
    (writes (output (importProperties path w))).
Proof.
  intros Hread.
  destruct (importProperties_run path rows w Hread) as [_ Hrec].
  apply reconciled_writes in Hrec. fold (writes (output (importProperties path w))) in Hrec.
  assert (forall prop,
            prop ∈ List.filter transmissible (property_of_row <$> List.filter not_built_in rows) ->
            exists r, r ∈ rows /\ r !! "Hubspot defined" <> Some "true" /\
                      prop = property_of_row r) as Hrows.
  { intros prop [Hprop _]%list_elem_of_In%List.filter_In.
    apply list_elem_of_In, list_elem_of_fmap in Hprop as (r & -> & Hr).
    apply list_elem_of_In, List.filter_In in Hr as [Hr Hcustom].
    exists r. split; [by apply list_elem_of_In |]. split; [| done].
    unfold not_built_in, is_true in Hcustom.
    by apply negb_true_iff, bool_decide_eq_false in Hcustom. }
  revert Hrows. induction Hrec as [| prop req props reqs Hwritten _ IH]; intros Hrows;
    [constructor |].
  constructor.
  - destruct (Hrows prop (list_elem_of_here _ _)) as (r & Hr & Hcustom & ->).
    destruct Hwritten as (existing & opts & Hopts & ->).
    exists r, existing, opts. split; [done |]. split; [done |]. split; [exact Hopts |].
    apply definition_request_of_row.
  - apply IH. intros prop' Hprop'. apply Hrows. by apply list_elem_of_further.
Qed.

End Workflows.

(** ** Against the reference store *)

Section StoreGroupings.
Context (api_key : value) (parse : string -> string + json)
  (stringify : Body -> string) (files : string -> string + list row).

Lemma listed_group (g : value) (gs : list value) :
  existsb (fun group => bool_decide (name group = g)) (named_object <$> gs)
    = bool_decide (g ∈ gs).
Proof.
  induction gs as [| h gs IH]; [done |]. cbn [fmap list_fmap existsb]. rewrite IH.
  cbn [name named_object]. apply eq_true_iff_eq.
  rewrite orb_true_iff, !bool_decide_eq_true, elem_of_cons. intuition congruence.
Qed.

(** X15.  Against a store that applies what it is sent, the grouping check
    leaves the store with the grouping present exactly once more than
    before if it was missing, and unchanged if it was there; it never
    touches the definitions.  A second check of the same grouping sends the
    listing only. *)
Theorem grouping_check_is_idempotent (g : value) (s : Store) :
  let P := reference_platform api_key parse stringify files in
  let checked := createGroupIfNotExists (P := P) g s in
  groups (world checked) = (if bool_decide (g ∈ groups s) then groups s
                            else groups s ++ [g]) /\
  definitions (world checked) = definitions s /\
  requests (output (createGroupIfNotExists (P := P) g (world checked))) =
    [groups_list_request (P := P)].
Proof.
  intros P checked.
  assert (forall s' : Store,
            createGroupIfNotExists (P := P) g s' =
              if bool_decide (g ∈ groups s')
              then {| outcome := Returned tt; world := s';
                      output := [Http (groups_list_request (P := P))
                                   (inr (BArray (Some <$> (named_object <$> groups s'))))] |}
              else {| outcome := Returned tt;
                      world := {| groups := groups s' ++ [g];
                                  definitions := definitions s' |};
                      output := [Http (groups_list_request (P := P))
                                   (inr (BArray (Some <$> (named_object <$> groups s'))));
                                 Http (group_create_request (P := P) g)
                                   (inr (BObject (named_object g)));
                                 ConsoleLog [Text ("Created property group: "
                                                     +:+ to_string g)]] |}) as Hcheck.
  { intros s'. rewrite (createGroupIfNotExists_cases (P := P) g s'). cbv zeta.
    cbn [remote P reference_platform].
    rewrite (store_groups_list api_key parse stringify files). cbn [fst snd].
    rewrite array_some_objects, listed_group.
    destruct (bool_decide (g ∈ groups s')); [done |].
    by rewrite (store_group_create api_key parse stringify files). }
  subst checked. rewrite (Hcheck s).
  destruct (bool_decide (g ∈ groups s)) eqn:Hg; cbn [world groups definitions].
  - split; [done |]. split; [done |]. rewrite (Hcheck s), Hg. done.
  - split; [done |]. split; [done |].
    rewrite (Hcheck {| groups := groups s ++ [g]; definitions := definitions s |}).
    cbn [groups]. rewrite bool_decide_eq_true_2; [done |].
    apply elem_of_app. right. by apply list_elem_of_singleton.
Qed.

End StoreGroupings.

Section StoreDeletion.
Context (api_key : value) (parse : string -> string + json)
  (stringify : Body -> string) (files : string -> string + list row).

Local Abbreviation RP := (reference_platform api_key parse stringify files).

Lemma find_unique (l : list Property) (p : Property) :
  NoDup (key <$> l) -> p ∈ l -> List.find (has_key (key p)) l = Some p.
Proof.
  induction l as [| q l IH]; intros Hnodup Hin; [by apply elem_of_nil in Hin |].
  rewrite fmap_cons in Hnodup. apply NoDup_cons in Hnodup as [Hq Hnodup].
  cbn [List.find]. unfold has_key at 1.
  destruct (String.eqb_spec (key q) (key p)) as [Heq | Hne].
  - apply elem_of_cons in Hin as [-> | Hin]; [done |].
    exfalso. apply Hq. rewrite Heq. apply list_elem_of_fmap. eauto.
  - apply elem_of_cons in Hin as [-> | Hin]; [done | by apply IH].
Qed.

Lemma same_key (l : list Property) (p q : Property) :
  NoDup (key <$> l) -> p ∈ l -> q ∈ l -> key p = key q -> p = q.
Proof.
  intros Hnodup Hp Hq Hkey.
  pose proof (find_unique l p Hnodup Hp) as H1.
  pose proof (find_unique l q Hnodup Hq) as H2.
  rewrite Hkey in H1. congruence.
Qed.

Lemma store_properties_list (s : Store) :
  store_remote s (properties_list_request (P := RP)) =
    (inr (BArray (Some <$> definitions s)), s).
Proof. reflexivity. Qed.

Lemma snapshot_of_objects (entries : list Property) :
  snapshot_of (inr (BArray (Some <$> entries))) =
    List.filter (fun prop => negb (hubspotDefined prop)) entries.
Proof.
  cbn [snapshot_of].
  assert (forallb (fun element : option Property => bool_decide (is_Some element))
            (Some <$> entries) = true /\
          omap id (Some <$> entries) = entries) as [-> ->]; [| done].
  induction entries as [| p entries [IH1 IH2]]; [done |].
  rewrite fmap_cons. cbn [forallb omap list_omap id]. rewrite IH1, IH2.
  by rewrite bool_decide_eq_true_2 by eauto.
Qed.

Lemma store_delete_found (s : Store) (n : value) (p : Property) :
  plain_name (to_string n) = true ->
  List.find (has_key (to_string n)) (definitions s) = Some p ->
  readOnly p = false ->
  store_remote s (delete_request (P := RP) n) =
    (inr BEmpty,
     {| groups := groups s;
        definitions :=
          List.filter (fun q => negb (has_key (to_string n) q)) (definitions s) |}).
Proof.
  intros Hn Hfind Hp. unfold store_remote, delete_request.
  cbn [method url]. cbv zeta. rewrite (transmitted_named n Hn).
  unfold store_delete, named_url. rewrite <- string_app_assoc, strip_prefix_app.
  by rewrite Hfind, Hp.
Qed.

Lemma in_snapshot_elem (cp : list Property) (n : value) :
  in_snapshot cp n = true <-> exists p, p ∈ cp /\ name p = n.
Proof.
  unfold in_snapshot. rewrite List.existsb_exists. split.
  - intros (p & Hp & Hname). exists p.
    split; [by apply list_elem_of_In | by apply bool_decide_eq_true in Hname].
  - intros (p & Hp & Hname). exists p.
    split; [by apply list_elem_of_In | by apply bool_decide_eq_true].
Qed.

Lemma filter_all {A} (l : list A) : List.filter (fun _ => true) l = l.
Proof. induction l as [| x l IH]; [done |]. cbn. by rewrite IH. Qed.

Lemma store_deletion_loop (cp : list Property) (size index : nat)
    (failed targets : list value) (s : Store) :
  NoDup targets ->
  Forall (fun n => plain_name (to_string n) = true) targets ->
  NoDup (keys s) ->
  (forall p, p ∈ cp -> name p ∈ targets -> p ∈ definitions s) ->
  outcome (deletion_loop (P := RP) cp size index failed targets s) =
    Returned (failed ++ List.filter
                (fun n => in_snapshot cp n
                          && existsb (fun p => bool_decide (name p = n) && readOnly p) cp)
                targets) /\
  groups (world (deletion_loop (P := RP) cp size index failed targets s)) = groups s /\
  definitions (world (deletion_loop (P := RP) cp size index failed targets s)) =
    List.filter (fun q => negb (in_snapshot cp (name q) && bool_decide (name q ∈ targets)
                                && negb (readOnly q)))
      (definitions s).
Proof.
  revert index failed s.
  induction targets as [| n rest IH]; intros index failed s Htargets Hplain Hkeys Hpresent.
  { cbn. rewrite app_nil_r. split; [done |]. split; [done |].
    rewrite <- (filter_all (definitions s)) at 1.
    apply List.filter_ext_in. intros q _.
    rewrite bool_decide_eq_false_2 by apply not_elem_of_nil.
    by rewrite andb_false_r. }
  apply NoDup_cons in Htargets as [Hn Hrest].
  apply Forall_cons in Hplain as [Hplain_n Hplain].
  change Store with (@World RP) in s.
  cbn [deletion_loop].
  pose proof (deletion_step_cases (P := RP) cp size index failed n s) as Hstep.
  cbv zeta in Hstep. cbn [remote reference_platform] in Hstep.
  rewrite (store_details api_key parse stringify files _ _ Hplain_n) in Hstep.
  cbn [fst snd] in Hstep.
  destruct (in_snapshot cp n) eqn:Hsnap.
  - apply in_snapshot_elem in Hsnap as Hp. destruct Hp as (p & Hp & Hname).
    assert (p ∈ definitions s) as Hps
      by (apply Hpresent; [done | rewrite Hname; by left]).
    assert (key p = to_string n) as Hkey by (unfold key; by rewrite Hname).
    pose proof (find_unique (definitions s) p Hkeys Hps) as Hfind.
    rewrite Hkey in Hfind. rewrite Hfind in Hstep.
    cbn [lookup_result found details_readOnly andb] in Hstep.
    assert (forall q, q ∈ definitions s -> name q = n -> q = p) as Hunique.
    { intros q Hq Hqn. apply (same_key (definitions s)); try done.
      unfold key. by rewrite Hqn, Hname. }
    destruct (readOnly p) eqn:Hro; cbn [negb] in Hstep.
    + rewrite (bind_returned _ _ _ (failed ++ [n])) by (by rewrite Hstep).
      rewrite outcome_after, world_after, Hstep. cbn [world].
      destruct (IH (S index) (failed ++ [n]) s Hrest Hplain Hkeys) as (-> & -> & ->).
      { intros q Hq Hqn. apply Hpresent; [done | by right]. }
      split.
      { rewrite <- app_assoc. cbn [app List.filter]. rewrite Hsnap. cbn [andb].
        assert (existsb (fun q => bool_decide (name q = n) && readOnly q) cp = true)
          as ->; [| done].
        apply List.existsb_exists. exists p. split; [by apply list_elem_of_In |].
        by rewrite Hro, bool_decide_eq_true_2. }
      split; [done |].
      apply List.filter_ext_in. intros q Hq%list_elem_of_In.
      destruct (decide (name q = n)) as [Hqn | Hqn].
      * rewrite (Hunique q Hq Hqn), Hro. by rewrite !andb_false_r.
      * do 3 f_equal. apply bool_decide_ext. rewrite elem_of_cons. intuition congruence.
    + rewrite (store_delete_found s n p Hplain_n Hfind Hro) in Hstep.
      cbn [fst snd succeeded] in Hstep.
      rewrite (bind_returned _ _ _ failed) by (by rewrite Hstep).
      rewrite outcome_after, world_after, Hstep. cbn [world].
      set (s' := {| groups := groups s;
                    definitions := List.filter (fun q => negb (has_key (to_string n) q))
                                     (definitions s) |}).
      assert (forall q, q ∈ definitions s -> has_key (to_string n) q = true -> q = p)
        as Hkeyed.
      { intros q Hq Hqk. apply (same_key (definitions s)); try done.
        unfold has_key in Hqk. apply String.eqb_eq in Hqk. congruence. }
      destruct (IH (S index) failed s' Hrest Hplain) as (-> & -> & ->).
      { unfold keys, s'. cbn [definitions].
        eapply sublist_NoDup; [exact Hkeys |]. apply fmap_sublist, filter_sublist. }
      { intros q Hq Hqn. unfold s'. cbn [definitions].
        apply list_elem_of_In, List.filter_In.
        assert (q ∈ definitions s) as Hqs by (apply Hpresent; [done | by right]).
        split; [by apply list_elem_of_In |].
        destruct (has_key (to_string n) q) eqn:Hqk; [| done].
        exfalso. apply Hn. rewrite <- Hname, <- (Hkeyed q Hqs Hqk). done. }
      split.
      { cbn [List.filter]. rewrite Hsnap. cbn [andb].
        assert (existsb (fun q => bool_decide (name q = n) && readOnly q) cp = false)
          as ->; [| done].
        apply not_true_is_false. intros (q & Hq & Hqn)%List.existsb_exists.
        apply andb_true_iff in Hqn as [Hqn%bool_decide_eq_true Hqro].
        apply list_elem_of_In in Hq.
        assert (q ∈ definitions s) as Hqs
          by (apply Hpresent; [done | rewrite Hqn; by left]).
        rewrite (Hunique q Hqs Hqn) in Hqro. congruence. }
      split; [done |].
      unfold s'. cbn [definitions].
      rewrite (filter_filter_ext _ _
                 (fun q => negb (in_snapshot cp (name q) && bool_decide (name q ∈ rest)
                                 && negb (readOnly q))
                           && negb (has_key (to_string n) q))) by done.
      apply List.filter_ext_in. intros q Hq%list_elem_of_In.
      destruct (has_key (to_string n) q) eqn:Hqk.
      * rewrite andb_false_r. rewrite (Hkeyed q Hq Hqk), Hname, Hro.
        assert (in_snapshot cp n = true) as -> by (apply in_snapshot_elem; eauto).
        by rewrite bool_decide_eq_true_2 by (by left).
      * rewrite andb_true_r. do 3 f_equal. apply bool_decide_ext.
        rewrite elem_of_cons. split; [by right |].
        intros [Hqn | ?]; [| done]. exfalso.
        unfold has_key, key in Hqk. rewrite Hqn in Hqk.
        by rewrite String.eqb_refl in Hqk.
  - rewrite (bind_returned _ _ _ failed) by (by rewrite Hstep).
    rewrite outcome_after, world_after, Hstep. cbn [world].
    destruct (IH (S index) failed s Hrest Hplain Hkeys) as (-> & -> & ->).
    { intros q Hq Hqn. apply Hpresent; [done | by right]. }
    split; [cbn [List.filter]; by rewrite Hsnap |]. split; [done |].
    apply List.filter_ext_in. intros q Hq%list_elem_of_In.
    destruct (decide (name q = n)) as [Hqn | Hqn].
    + by rewrite Hqn, Hsnap.
    + do 3 f_equal. apply bool_decide_ext. rewrite elem_of_cons. intuition congruence.
Qed.

(** X18.  Against a store that applies what it is sent and holds no key
    twice, and for targets with plain names, so that the URL of a name
    reaches the server as it is written, a run of the Batch Deleter removes
    exactly the definitions that are named by a target, not built in and
    not read-only.  It leaves every other definition and the groupings as
    they were, and returns as failures the targets that name a custom
    read-only definition. *)
Theorem store_deletion_removes_custom_targets (path : string) (rows : list row)
    (s : Store) :
  files path = inr rows ->
  NoDup (keys s) ->
  Forall (fun r : row => r !! "Hubspot defined" = Some "true" \/
                         exists n, r !! "Internal name" = Some n /\ plain_name n = true) rows ->
  let targets := foldl delete_on_data [] rows in
  outcome (deletePropertiesFromCSV (P := RP) path s) =
    Returned
      (List.filter
         (fun n => existsb (fun q => bool_decide (name q = n)
                                     && negb (hubspotDefined q) && readOnly q)
                     (definitions s))
         targets) /\
  groups (world (deletePropertiesFromCSV (P := RP) path s)) = groups s /\
  definitions (world (deletePropertiesFromCSV (P := RP) path s)) =
    List.filter
      (fun q => negb (bool_decide (name q ∈ targets)
                      && negb (hubspotDefined q) && negb (readOnly q)))
      (definitions s).
Proof.
  intros Hread Hkeys Hrows targets.
  assert (Forall (fun n => plain_name (to_string n) = true) targets) as Hplain.
  { apply Forall_forall. intros n Hn. unfold targets in Hn.
    rewrite delete_rows, Set_of_list in Hn.
    apply first_occurrences_elem, list_elem_of_fmap in Hn as (r & -> & Hr).
    apply list_elem_of_In, List.filter_In in Hr as [Hr Hcustom].
    rewrite Forall_forall in Hrows.
    destruct (Hrows r (proj2 (list_elem_of_In _ _) Hr)) as [Hb | (n & Hn & Hplain)].
    2: { by rewrite Hn. }
    unfold not_built_in, is_true in Hcustom. rewrite Hb in Hcustom.
    by rewrite bool_decide_eq_true_2 in Hcustom. }
  set (cp := List.filter (fun prop => negb (hubspotDefined prop)) (definitions s)).
  assert (forall p, p ∈ cp <-> p ∈ definitions s /\ hubspotDefined p = false) as Hcp.
  { intros p. unfold cp. rewrite !list_elem_of_In, List.filter_In, negb_true_iff. done. }
  destruct (store_deletion_loop cp (length targets) 1 [] targets s)
    as (Hout & Hgroups & Hdefs).
  { apply targets_NoDup. }
  { exact Hplain. }
  { done. }
  { intros p Hp _. by apply Hcp. }
  cbn [app] in Hout.
  pose proof (deletePropertiesFromCSV_run (P := RP) path rows s
    (List.filter (fun n => in_snapshot cp n
        && existsb (fun p => bool_decide (name p = n) && readOnly p) cp) targets)
    Hread) as Hrun.
  cbv zeta in Hrun. cbn [remote reference_platform] in Hrun.
  rewrite store_properties_list in Hrun. cbn [fst snd] in Hrun.
  rewrite snapshot_of_objects in Hrun. fold cp targets in Hrun.
  destruct (Hrun Hout) as (-> & -> & _).
  rewrite Hgroups, Hdefs. split; [| split; [done |]].
  - f_equal. apply List.filter_ext. intros n.
    apply eq_true_iff_eq. rewrite andb_true_iff, in_snapshot_elem, !List.existsb_exists.
    split.
    + intros [_ (p & Hp & Hn)]. exists p. apply list_elem_of_In, Hcp in Hp as [Hp Hcustom].
      split; [by apply list_elem_of_In |].
      apply andb_true_iff in Hn as [Hn Hro]. by rewrite Hn, Hcustom, Hro.
    + intros (p & Hp & Hn). apply list_elem_of_In in Hp.
      apply andb_true_iff in Hn as [Hn Hro].
      apply andb_true_iff in Hn as [Hn Hcustom%negb_true_iff].
      assert (p ∈ cp) as Hpcp by (by apply Hcp).
      split.
      * exists p. split; [done | by apply bool_decide_eq_true in Hn].
      * exists p. split; [by apply list_elem_of_In | by rewrite Hn, Hro].
  - apply List.filter_ext_in. intros q Hq%list_elem_of_In.
    f_equal.
    assert (in_snapshot cp (name q) = negb (hubspotDefined q)) as ->.
    { apply eq_true_iff_eq. rewrite in_snapshot_elem, negb_true_iff. split.
      - intros (p & [Hp Hcustom]%Hcp & Hname).
        assert (p = q) as <-; [| done].
        apply (same_key (definitions s)); try done. unfold key. by rewrite Hname.
      - intros Hcustom. exists q. split; [by apply Hcp | done]. }
    by destruct (hubspotDefined q), (bool_decide (name q ∈ targets)).
Qed.

End StoreDeletion.

Section StoreGroupDeletion.
Context (api_key : value) (parse : string -> string + json)
  (stringify : Body -> string) (files : string -> string + list row).

Local Abbreviation RP := (reference_platform api_key parse stringify files).

Lemma filter_absent (x : value) (l : list value) :
  x ∉ l -> List.filter (fun h => negb (bool_decide (h = x))) l = l.
Proof.
  induction l as [| y l IH]; intros Hx; [done |].
  apply not_elem_of_cons in Hx as [Hne Hx]. cbn [List.filter].
  rewrite bool_decide_eq_false_2 by congruence. cbn [negb]. by rewrite IH.
Qed.

Lemma store_group_delete (s : Store) (g : value) :
  plain_name (to_string g) = true ->
  definitions (store_remote s (group_delete_request (P := RP) g)).2 = definitions s /\
  groups (store_remote s (group_delete_request (P := RP) g)).2 =
    List.filter (fun h => negb (bool_decide (h = Some (to_string g)))) (groups s).
Proof.
  intros Hg. unfold store_remote, group_delete_request. cbn [method url]. cbv zeta.
  change (transmitted (GROUPS_URL +:+ "/" +:+ to_string g))
    with (GROUPS_URL +:+ "/" +:+ transmitted (to_string g)).
  rewrite (transmitted_plain _ Hg). unfold store_delete.
  assert (strip_prefix (BASE_URL +:+ "/named/") (GROUPS_URL +:+ "/" +:+ to_string g)
          = None) as -> by reflexivity.
  rewrite <- string_app_assoc, strip_prefix_app.
  case_bool_decide as Hin; cbn [snd groups definitions]; [done |].
  by rewrite filter_absent.
Qed.

Lemma store_group_deletion_loop (size index : nat) (gs : list value) (s : Store) :
  Forall (fun g => plain_name (to_string g) = true) gs ->
  definitions (world (group_deletion_loop (P := RP) size index gs s)) = definitions s /\
  groups (world (group_deletion_loop (P := RP) size index gs s)) =
    List.filter
      (fun h => negb (bool_decide (h ∈ (fun g => Some (to_string g)) <$> gs)))
      (groups s).
Proof.
  intros Hplain. revert index s.
  induction Hplain as [| g gs Hg _ IH]; intros index s.
  - cbn [group_deletion_loop ret world fmap list_fmap]. split; [done |].
    symmetry. etransitivity; [| apply filter_all].
    apply List.filter_ext. intros h. apply negb_true_iff, bool_decide_eq_false_2.
    apply not_elem_of_nil.
  - change Store with (@World RP) in s.
    cbn [group_deletion_loop]. unfold group_deletion_step.
    rewrite bind_assoc, bind_console_log.
    rewrite (bind_returned _ _ _ tt) by (by rewrite deleteGroup_run).
    rewrite !world_after. rewrite deleteGroup_run. cbn [world].
    destruct (IH (S index) (@remote RP s (group_delete_request (P := RP) g)).2)
      as (-> & ->).
    cbn [remote reference_platform].
    destruct (store_group_delete s g Hg) as (Hdefs & Hgroups). split; [exact Hdefs |].
    etransitivity; [exact (f_equal (List.filter _) Hgroups) |].
    apply filter_filter_ext. intros h. rewrite fmap_cons.
    apply eq_true_iff_eq.
    rewrite andb_true_iff, !negb_true_iff, !bool_decide_eq_false, elem_of_cons.
    tauto.
Qed.

(** X19.  Against a store that applies what it is sent, and for
    grouping names that are plain, so that the URL of a name reaches the
    server as it is written, a run of the Grouping Deleter removes exactly
    the groupings whose name is the text of a 'Group name' cell of the
    file, whether or not a definition still refers to them, and leaves the
    definitions as they were.  A row without that cell removes the grouping
    named [undefined]. *)
Theorem store_group_deletion_removes_named_groups (path : string) (rows : list row)
    (s : Store) :
  files path = inr rows ->
  Forall (fun r : row => plain_name (to_string (r !! "Group name")) = true) rows ->
  definitions (world (deleteGroupsFromCSV (P := RP) path s)) = definitions s /\
  groups (world (deleteGroupsFromCSV (P := RP) path s)) =
    List.filter
      (fun h => negb (bool_decide
         (h ∈ (fun r : row => Some (to_string (r !! "Group name"))) <$> rows)))
      (groups s).
Proof.
  intros Hread Hrows. change Store with (@World RP) in s.
  assert (@read_csv RP path = inr rows) as Hread' by exact Hread.
  unfold deleteGroupsFromCSV, read_rows. rewrite Hread'.
  rewrite bind_console_log, bind_ret, after_nil. cbv zeta. rewrite bind_console_log.
  set (gs := foldl groups_on_data [] rows).
  destruct (group_deletion_loop_run (P := RP) (length gs) 1 gs s) as (Hout & _).
  rewrite (bind_returned _ _ _ tt Hout). rewrite !world_after.
  unfold console_log, emit. cbn [world].
  destruct (store_group_deletion_loop (length gs) 1 gs s) as (-> & ->).
  { apply Forall_forall. intros g Hg. unfold gs in Hg.
    rewrite groups_rows, Set_of_list in Hg.
    apply first_occurrences_elem, list_elem_of_fmap in Hg as (r & -> & Hr).
    rewrite Forall_forall in Hrows. by apply Hrows. }
  split; [done |]. apply List.filter_ext. intros h. f_equal.
  apply bool_decide_ext. unfold gs. rewrite groups_rows, Set_of_list.
  rewrite !list_elem_of_fmap. split.
  - intros (g & -> & Hg). apply first_occurrences_elem, list_elem_of_fmap in Hg
      as (r & -> & Hr). by exists r.
  - intros (r & -> & Hr). exists (r !! "Group name"). split; [done |].
    apply first_occurrences_elem, list_elem_of_fmap. by exists r.
Qed.

End StoreGroupDeletion.

(** ** The further properties at concrete inputs *)

Lemma createOrUpdateProperty_returns_success_witness :
  options_value (P := score_example) (options score) = inr (Some (JArr [])) /\
  outcome (createOrUpdateProperty (P := score_example) score empty_store)
    = Returned true /\
  definitions (world (createOrUpdateProperty (P := score_example) score empty_store))
    = [entity_of_data (definition_data score (Some (JArr [])))].
Proof.
  split; [reflexivity |].
  rewrite (createOrUpdateProperty_returns_success (P := score_example) score
             (Some (JArr [])) empty_store eq_refl).
  split; reflexivity.
Defined.

Lemma deletable_target_is_deleted_witness :
  in_snapshot [entity "a" false false; entity "c" true false] (Some "a") = true /\
  (@remote deletion_example example_store
     (details_request (P := deletion_example) (Some "a"))).1
    = inr (BObject (entity "a" false false)) /\
  readOnly (entity "a" false false) = false /\
  outcome (deletion_step (P := deletion_example)
             [entity "a" false false; entity "c" true false] 3 1 [] (Some "a")
             example_store) = Returned [] /\
  definitions (world (deletion_step (P := deletion_example)
                        [entity "a" false false; entity "c" true false] 3 1 []
                        (Some "a") example_store))
    = [entity "c" true false; entity "email" false true].
Proof.
  split; [reflexivity |]. split; [reflexivity |]. split; [reflexivity |].
  rewrite (deletable_target_is_deleted (P := deletion_example)
             [entity "a" false false; entity "c" true false] 3 1 [] (Some "a")
             (entity "a" false false) example_store eq_refl eq_refl eq_refl).
  split; reflexivity.
Defined.

Lemma one_pause_per_snapshot_target_witness :
  @read_csv deletion_example "export.csv" = inr deletion_rows_example /\
  List.filter is_sleep
    (output (deletePropertiesFromCSV (P := deletion_example) "export.csv" example_store))
    = [Sleep 1000; Sleep 1000].
Proof.
  split; [reflexivity |].
  rewrite (one_pause_per_snapshot_target (P := deletion_example) "export.csv"
             deletion_rows_example example_store eq_refl).
  reflexivity.
Defined.

Lemma targets_are_the_distinct_custom_names_witness :
  @read_csv deletion_example "export.csv" = inr deletion_rows_example /\
  NoDup (foldl delete_on_data [] deletion_rows_example) /\
  ConsoleLog [Text ("Found "
                      +:+ pretty (length (foldl delete_on_data [] deletion_rows_example))
                      +:+ " properties to delete.")]
    ∈ output (deletePropertiesFromCSV (P := deletion_example) "export.csv" example_store).
Proof.
  split; [reflexivity |].
  destruct (targets_are_the_distinct_custom_names (P := deletion_example) "export.csv"
              deletion_rows_example example_store eq_refl)
    as (_ & Hnodup & _ & Hlog).
  split; [exact Hnodup | exact Hlog].
Defined.

Lemma failures_are_distinct_snapshot_targets_witness :
  @read_csv deletion_example "export.csv" = inr deletion_rows_example /\
  exists failedDeletions : list value,
    outcome (deletePropertiesFromCSV (P := deletion_example) "export.csv" example_store)
      = Returned failedDeletions /\
    NoDup failedDeletions.
Proof.
  split; [reflexivity |].
  destruct (failures_are_distinct_snapshot_targets (P := deletion_example) "export.csv"
              deletion_rows_example example_store eq_refl)
    as (failedDeletions & Hout & _ & Hnodup).
  by exists failedDeletions.
Defined.

Lemma failures_are_reported_when_any_witness :
  @read_csv deletion_example "export.csv" = inr deletion_rows_example /\
  exists failedDeletions : list value,
    outcome (deletePropertiesFromCSV (P := deletion_example) "export.csv" example_store)
      = Returned failedDeletions /\
    List.filter is_report
      (output (deletePropertiesFromCSV (P := deletion_example) "export.csv"
                 example_store)) =
      match failedDeletions with
      | [] => []
      | _ :: _ =>
          [ConsoleError [Text "Failed to delete the following properties:";
                         Names failedDeletions]]
      end.
Proof.
  split; [reflexivity |].
  exact (failures_are_reported_when_any (P := deletion_example) "export.csv"
           deletion_rows_example example_store eq_refl).
Defined.

Lemma unreadable_file_ends_the_process_witness :
  truthy (@API_KEY score_example) = true /\
  truthy (Some "missing.csv") = true /\
  @read_csv score_example "missing.csv" = inl "ENOENT: no such file or directory" /\
  status (main (P := score_example) ["node"; "index.ts"; "import"; "missing.csv"]
            empty_store) = 1%Z /\
  requests (trace (main (P := score_example)
                     ["node"; "index.ts"; "import"; "missing.csv"] empty_store)) = [].
Proof.
  split; [reflexivity |]. split; [reflexivity |]. split; [reflexivity |].
  exact (unreadable_file_ends_the_process (P := score_example) "import" "missing.csv"
           "ENOENT: no such file or directory" empty_store eq_refl eq_refl eq_refl
           (or_introl eq_refl)).
Defined.

Lemma rows_without_options_are_all_written_witness :
  @read_csv (store_platform [example_row "plain" "leadinfo" EmptyString "false";
                             built_in_row]) "export.csv"
    = inr [example_row "plain" "leadinfo" EmptyString "false"; built_in_row] /\
  Forall (fun r : row => r !! "Hubspot defined" = Some "true" \/
                         r !! "Options" = None \/
                         r !! "Options" = Some EmptyString)
    [example_row "plain" "leadinfo" EmptyString "false"; built_in_row] /\
  Forall2 (fun r req => exists existing : bool,
             req = definition_request
                     (P := store_platform
                             [example_row "plain" "leadinfo" EmptyString "false";
                              built_in_row])
                     existing (property_of_row r) None)
    (List.filter (fun r : row => negb (bool_decide (r !! "Hubspot defined" = Some "true")))
       [example_row "plain" "leadinfo" EmptyString "false"; built_in_row])
    (writes (output (importProperties
                       (P := store_platform
                               [example_row "plain" "leadinfo" EmptyString "false";
                                built_in_row])
                       "export.csv" empty_store))).
Proof.
  split; [reflexivity |].
  assert (Forall (fun r : row => r !! "Hubspot defined" = Some "true" \/
                                 r !! "Options" = None \/
                                 r !! "Options" = Some EmptyString)
            [example_row "plain" "leadinfo" EmptyString "false"; built_in_row]) as Hall.
  { apply Forall_cons_2; [right; right; reflexivity |].
    apply Forall_cons_2; [left; reflexivity | apply Forall_nil_2]. }
  split; [exact Hall |].
  exact (rows_without_options_are_all_written
           (P := store_platform [example_row "plain" "leadinfo" EmptyString "false";
                                 built_in_row])
           "export.csv" _ empty_store eq_refl Hall).
Defined.

Lemma empty_file_is_a_no_op_witness :
  @read_csv (store_platform []) "export.csv" = inr [] /\
  requests (output (importProperties (P := store_platform []) "export.csv" example_store))
    = [] /\
  world (deleteGroupsFromCSV (P := store_platform []) "export.csv" example_store)
    = example_store /\
  outcome (deletePropertiesFromCSV (P := store_platform []) "export.csv" example_store)
    = Returned [].
Proof.
  split; [reflexivity |].
  destruct (empty_file_is_a_no_op (P := store_platform []) "export.csv" example_store
              eq_refl) as (Himport & Hgroups & Hout & _).
  rewrite Himport, Hgroups. split; [reflexivity |]. split; [reflexivity | exact Hout].
Defined.

Lemma store_deletion_removes_custom_targets_witness :
  example_files deletion_rows_example "export.csv" = inr deletion_rows_example /\
  NoDup (keys example_store) /\
  Forall (fun r : row => r !! "Hubspot defined" = Some "true" \/
                         exists n, r !! "Internal name" = Some n /\ plain_name n = true)
    deletion_rows_example /\
  outcome (deletePropertiesFromCSV (P := deletion_example) "export.csv" example_store)
    = Returned [Some "c"] /\
  definitions (world (deletePropertiesFromCSV (P := deletion_example) "export.csv"
                        example_store))
    = [entity "c" true false; entity "email" false true].
Proof.
  split; [reflexivity |].
  assert (NoDup (keys example_store)) as Hkeys
    by (apply (bool_decide_unpack _); vm_compute; exact I).
  split; [exact Hkeys |].
  assert (Forall (fun r : row => r !! "Hubspot defined" = Some "true" \/
                                 exists n, r !! "Internal name" = Some n /\ plain_name n = true)
            deletion_rows_example) as Hplain.
  { repeat (apply Forall_cons_2; [right; eexists; split; reflexivity |]).
    apply Forall_nil_2. }
  split; [exact Hplain |].
  destruct (store_deletion_removes_custom_targets (Some "secret") example_parse
              example_stringify (example_files deletion_rows_example) "export.csv"
              deletion_rows_example example_store eq_refl Hkeys Hplain)
    as (Hout & _ & Hdefs).
  split.
  - etransitivity; [exact Hout | reflexivity].
  - etransitivity; [exact Hdefs | reflexivity].
Defined.

Lemma store_group_deletion_removes_named_groups_witness :
  example_files deletion_rows_example "export.csv" = inr deletion_rows_example /\
  Forall (fun r : row => plain_name (to_string (r !! "Group name")) = true)
    deletion_rows_example /\
  groups (world (deleteGroupsFromCSV (P := deletion_example) "export.csv" example_store))
    = [] /\
  definitions (world (deleteGroupsFromCSV (P := deletion_example) "export.csv"
                        example_store))
    = definitions example_store.
Proof.
  split; [reflexivity |].
  assert (Forall (fun r : row => plain_name (to_string (r !! "Group name")) = true)
            deletion_rows_example) as Hplain.
  { repeat (apply Forall_cons_2; [reflexivity |]). apply Forall_nil_2. }
  split; [exact Hplain |].
  destruct (store_group_deletion_removes_named_groups (Some "secret") example_parse
              example_stringify (example_files deletion_rows_example) "export.csv"
              deletion_rows_example example_store eq_refl Hplain)
    as (Hdefs & Hgroups).
  split.
  - etransitivity; [exact Hgroups | reflexivity].
  - exact Hdefs.
Defined.

Lemma writes_carry_the_cells_of_a_row_witness :
  @read_csv score_example "export.csv" = inr [score_row] /\
  Forall (fun req =>
            exists (r : row) (existing : bool) (opts : option json),
              r ∈ [score_row] /\
              req = definition_request (P := score_example) existing
                      (property_of_row r) opts)
    (writes (output (importProperties (P := score_example) "export.csv" empty_store))).
Proof.
  split; [reflexivity |].
  eapply Forall_impl;
    [exact (writes_carry_the_cells_of_a_row (P := score_example) "export.csv"
              [score_row] empty_store eq_refl) |].
  intros req (r & existing & opts & Hr & _ & _ & ->).
  exists r, existing, opts. split; [exact Hr |].
  symmetry. apply (definition_request_of_row (P := score_example)).
Defined.
